(** * pastryjs: cookie serialisation and the client cookie helpers

    A shallow embedding of [src/pastry.ts] (the server formatter [_server]
    and the web helpers [_set], [_get], [_delete], [_update], [_keys],
    [_values]) together with the ECMAScript built-ins they call.

    JavaScript strings are sequences of UTF-16 code units; a code unit is
    an integer in [0, 65536).  Exceptions are values of an error monad.
    A number is NaN, a safe integer, or another non-zero number given by
    the string it prints as.  The global [document] may be undeclared, in
    which case evaluating it raises a ReferenceError. *)

From Stdlib Require Import ZArith List Bool Lia String Ascii Permutation.
From Stdlib Require Import Numbers.DecimalString.
Import ListNotations.
Open Scope Z_scope.

(** ** Exceptions *)

Inductive error : Type :=
| URIError
| TypeError
| ReferenceError.

Inductive result (A : Type) : Type :=
| Ok (a : A)
| Throw (e : error).

Arguments Ok {A} a.
Arguments Throw {A} e.

Definition bind {A B : Type} (m : result A) (k : A -> result B) : result B :=
  match m with
  | Ok a => k a
  | Throw e => Throw e
  end.

Notation "x <- m ;; k" := (bind m (fun x => k))
  (at level 61, m at next level, right associativity).

(** [arr.map(f)] where the callback may throw: elements are visited from
    left to right and the first exception aborts the traversal. *)
Fixpoint mapM {A B : Type} (f : A -> result B) (l : list A) : result (list B) :=
  match l with
  | [] => Ok []
  | a :: l' => b <- f a ;; bs <- mapM f l' ;; Ok (b :: bs)
  end.

(** ** ECMAScript strings *)

Module JS.

Definition code_unit : Type := Z.
Definition jsstring : Type := list code_unit.

(** A string literal of the source, as code units (the literals of the
    source are all ASCII). *)
Definition js (s : string) : jsstring :=
  List.map (fun a => Z.of_N (N_of_ascii a)) (list_ascii_of_string s).

Definition is_code_unit (c : Z) : bool := (0 <=? c) && (c <? 65536).

Fixpoint eqb (s t : jsstring) : bool :=
  match s, t with
  | [], [] => true
  | c :: s', d :: t' => (c =? d) && eqb s' t'
  | _, _ => false
  end.

(** [s.startsWith(p)] *)
Fixpoint startsWith (s p : jsstring) {struct p} : bool :=
  match p, s with
  | [], _ => true
  | d :: p', c :: s' => (c =? d) && startsWith s' p'
  | _ :: _, [] => false
  end.

(** [s.includes(p)] *)
Fixpoint includes (s p : jsstring) : bool :=
  startsWith s p ||
  match s with
  | [] => false
  | _ :: s' => includes s' p
  end.

(** [s.replace(p, r)] for a string pattern [p] and a replacement [r]
    without [$] patterns: only the first occurrence is replaced. *)
Fixpoint replace (s p r : jsstring) : jsstring :=
  if startsWith s p then r ++ skipn (List.length p) s
  else match s with
       | [] => []
       | c :: s' => c :: replace s' p r
       end.

(** [s.split(sep)] for a separator of one code unit (the source splits on
    [";"] and on ["="] only).  The result always has at least one element;
    the empty string splits into the single empty string. *)
Fixpoint split (sep : code_unit) (s : jsstring) : list jsstring :=
  match s with
  | [] => [[]]
  | c :: s' =>
      if c =? sep then [] :: split sep s'
      else match split sep s' with
           | [] => [[c]]
           | seg :: segs => (c :: seg) :: segs
           end
  end.

(** WhiteSpace and LineTerminator code units, as stripped by [trim]. *)
Definition isWhiteSpace (c : code_unit) : bool :=
  ((9 <=? c) && (c <=? 13)) || (c =? 32) || (c =? 160) || (c =? 5760)
  || ((8192 <=? c) && (c <=? 8202)) || (c =? 8232) || (c =? 8233)
  || (c =? 8239) || (c =? 8287) || (c =? 12288) || (c =? 65279).

Fixpoint trimStart (s : jsstring) : jsstring :=
  match s with
  | [] => []
  | c :: s' => if isWhiteSpace c then trimStart s' else s
  end.

Definition trimEnd (s : jsstring) : jsstring := rev (trimStart (rev s)).

(** [s.trim()] *)
Definition trim (s : jsstring) : jsstring := trimEnd (trimStart s).

(** [arr[i]]: [None] stands for [undefined]. *)
Definition index {A : Type} (l : list A) (i : nat) : option A := nth_error l i.

(** [x.trim()] where [x] may be [undefined]: calling a method on
    [undefined] raises a TypeError. *)
Definition trim_of (x : option jsstring) : result jsstring :=
  match x with
  | Some s => Ok (trim s)
  | None => Throw TypeError
  end.

(** The decimal digits of an integer, with a minus sign when negative. *)
Definition decimal (n : Z) : jsstring :=
  js (NilZero.string_of_int (Z.to_int n)).

(** ToZeroPaddedDecimalString(n, 2) and (n, 4), for [0 <= n]. *)
Definition pad2 (n : Z) : jsstring :=
  if n <? 10 then js "0" ++ decimal n else decimal n.

Definition pad4 (n : Z) : jsstring :=
  if n <? 10 then js "000" ++ decimal n
  else if n <? 100 then js "00" ++ decimal n
  else if n <? 1000 then js "0" ++ decimal n
  else decimal n.

(** *** Numbers

    A Number value, as far as [if (x)] and a template literal observe it:
    NaN; a safe integer, at most 2^53 - 1 in magnitude (both zeros are the
    integer 0); or any other number (a fraction, a larger magnitude, an
    infinity), which is never zero and is given by the string
    Number::toString prints for it, such as ["1.5"], ["1e+21"] or
    ["Infinity"]. *)

Definition MAX_SAFE_INTEGER : Z := 9007199254740991.

Inductive number : Type :=
| NaN
| Integer (n : Z) (safe : (Z.abs n <=? MAX_SAFE_INTEGER) = true)
| Inexact (text : jsstring).

(** A safe integer literal. *)
Abbreviation int n := (Integer n eq_refl).

(** Number::toString: a safe integer prints by its decimal digits. *)
Definition ToString (x : number) : jsstring :=
  match x with
  | NaN => js "NaN"
  | Integer n _ => decimal n
  | Inexact text => text
  end.

(** *** encodeURIComponent and decodeURIComponent

    ECMAScript's Encode and Decode with the unreserved set of
    [encodeURIComponent] (uriAlpha, DecimalDigit, uriMark) and the empty
    preserved set of [decodeURIComponent]. *)

Definition uriUnescaped (c : code_unit) : bool :=
  ((65 <=? c) && (c <=? 90)) || ((97 <=? c) && (c <=? 122))
  || ((48 <=? c) && (c <=? 57))
  || (c =? 45) || (c =? 95) || (c =? 46) || (c =? 33) || (c =? 126)
  || (c =? 42) || (c =? 39) || (c =? 40) || (c =? 41).

Definition isLeadingSurrogate (c : code_unit) : bool :=
  (55296 <=? c) && (c <=? 56319).

Definition isTrailingSurrogate (c : code_unit) : bool :=
  (56320 <=? c) && (c <=? 57343).

(** UTF16SurrogatePairToCodePoint *)
Definition UTF16SurrogatePairToCodePoint (lead trail : code_unit) : Z :=
  (lead - 55296) * 1024 + (trail - 56320) + 65536.

(** UTF16EncodeCodePoint *)
Definition UTF16EncodeCodePoint (cp : Z) : jsstring :=
  if cp <=? 65535 then [cp]
  else [(cp - 65536) / 1024 + 55296; (cp - 65536) mod 1024 + 56320].

(** The UTF-8 transformation of a code point into octets. *)
Definition utf8_octets (cp : Z) : list Z :=
  if cp <? 128 then [cp]
  else if cp <? 2048 then [192 + cp / 64; 128 + cp mod 64]
  else if cp <? 65536 then
    [224 + cp / 4096; 128 + (cp / 64) mod 64; 128 + cp mod 64]
  else
    [240 + cp / 262144; 128 + (cp / 4096) mod 64;
     128 + (cp / 64) mod 64; 128 + cp mod 64].

(** An upper-case hexadecimal digit, for [0 <= n < 16]. *)
Definition hex_digit (n : Z) : code_unit :=
  if n <? 10 then 48 + n else 55 + n.

(** ["%XY"] for an octet. *)
Definition escape_octet (b : Z) : jsstring :=
  [37; hex_digit (b / 16); hex_digit (b mod 16)].

Definition escape_octets (bs : list Z) : jsstring :=
  flat_map escape_octet bs.

Fixpoint encodeURIComponent (s : jsstring) : result jsstring :=
  match s with
  | [] => Ok []
  | c :: rest =>
      if uriUnescaped c then
        r <- encodeURIComponent rest ;; Ok (c :: r)
      else if isLeadingSurrogate c then
        match rest with
        | d :: rest' =>
            if isTrailingSurrogate d then
              r <- encodeURIComponent rest' ;;
              Ok (escape_octets
                    (utf8_octets (UTF16SurrogatePairToCodePoint c d)) ++ r)
            else Throw URIError
        | [] => Throw URIError
        end
      else if isTrailingSurrogate c then Throw URIError
      else
        r <- encodeURIComponent rest ;;
        Ok (escape_octets (utf8_octets c) ++ r)
  end.

Definition hex_value (c : code_unit) : option Z :=
  if (48 <=? c) && (c <=? 57) then Some (c - 48)
  else if (65 <=? c) && (c <=? 70) then Some (c - 55)
  else if (97 <=? c) && (c <=? 102) then Some (c - 87)
  else None.

(** ParseHexOctet on the two code units after a ["%"]. *)
Definition ParseHexOctet (h l : code_unit) : option Z :=
  match hex_value h, hex_value l with
  | Some a, Some b => Some (16 * a + b)
  | _, _ => None
  end.

Definition isContinuation (b : Z) : bool := (128 <=? b) && (b <? 192).

(** The code point of a well-formed UTF-8 sequence of 2, 3 or 4 octets
    (no overlong form, no surrogate, at most U+10FFFF). *)
Definition utf8_decode2 (b1 b2 : Z) : option Z :=
  let cp := (b1 - 192) * 64 + (b2 - 128) in
  if isContinuation b2 && (128 <=? cp) then Some cp else None.

Definition utf8_decode3 (b1 b2 b3 : Z) : option Z :=
  let cp := (b1 - 224) * 4096 + (b2 - 128) * 64 + (b3 - 128) in
  if isContinuation b2 && isContinuation b3 && (2048 <=? cp)
     && negb ((55296 <=? cp) && (cp <=? 57343))
  then Some cp else None.

Definition utf8_decode4 (b1 b2 b3 b4 : Z) : option Z :=
  let cp := (b1 - 240) * 262144 + (b2 - 128) * 4096
            + (b3 - 128) * 64 + (b4 - 128) in
  if isContinuation b2 && isContinuation b3 && isContinuation b4
     && (65536 <=? cp) && (cp <=? 1114111)
  then Some cp else None.

Definition emit (cp : option Z) (k : result jsstring) : result jsstring :=
  match cp with
  | Some v => r <- k ;; Ok (UTF16EncodeCodePoint v ++ r)
  | None => Throw URIError
  end.

Definition octet_after (p h l : code_unit) : option Z :=
  if p =? 37 then ParseHexOctet h l else None.

Fixpoint decodeURIComponent (s : jsstring) : result jsstring :=
  match s with
  | [] => Ok []
  | c :: rest =>
    if c =? 37 then
      match rest with
      | h1 :: l1 :: r1 =>
        match ParseHexOctet h1 l1 with
        | None => Throw URIError
        | Some B =>
          if B <? 128 then r <- decodeURIComponent r1 ;; Ok (B :: r)
          else if B <? 192 then Throw URIError
          else if B <? 224 then
            match r1 with
            | p2 :: h2 :: l2 :: r2 =>
              match octet_after p2 h2 l2 with
              | Some b2 => emit (utf8_decode2 B b2) (decodeURIComponent r2)
              | None => Throw URIError
              end
            | _ => Throw URIError
            end
          else if B <? 240 then
            match r1 with
            | p2 :: h2 :: l2 :: p3 :: h3 :: l3 :: r3 =>
              match octet_after p2 h2 l2, octet_after p3 h3 l3 with
              | Some b2, Some b3 =>
                  emit (utf8_decode3 B b2 b3) (decodeURIComponent r3)
              | _, _ => Throw URIError
              end
            | _ => Throw URIError
            end
          else if B <? 248 then
            match r1 with
            | p2 :: h2 :: l2 :: p3 :: h3 :: l3 :: p4 :: h4 :: l4 :: r4 =>
              match octet_after p2 h2 l2, octet_after p3 h3 l3,
                    octet_after p4 h4 l4 with
              | Some b2, Some b3, Some b4 =>
                  emit (utf8_decode4 B b2 b3 b4) (decodeURIComponent r4)
              | _, _, _ => Throw URIError
              end
            | _ => Throw URIError
            end
          else Throw URIError
        end
      | _ => Throw URIError
      end
    else r <- decodeURIComponent rest ;; Ok (c :: r)
  end.

(** A string that [encodeURIComponent] accepts: 16-bit code units with
    every surrogate paired. *)
Fixpoint well_formed (s : jsstring) : bool :=
  match s with
  | [] => true
  | c :: rest =>
      is_code_unit c &&
      if isLeadingSurrogate c then
        match rest with
        | d :: rest' => isTrailingSurrogate d && well_formed rest'
        | [] => false
        end
      else negb (isTrailingSurrogate c) && well_formed rest
  end.

End JS.

Import JS.

(** *** Date.prototype.toUTCString *)

Module Date.

(** A Date object holds a time value: milliseconds since the epoch, or NaN
    ([None]) for an invalid date. *)
Record t : Type := mk { tv : option Z }.

Definition msPerDay : Z := 86400000.

Definition Day (ms : Z) : Z := ms / msPerDay.
Definition TimeWithinDay (ms : Z) : Z := ms mod msPerDay.
Definition WeekDay (ms : Z) : Z := (Day ms + 4) mod 7.
Definition HourFromTime (ms : Z) : Z := (ms / 3600000) mod 24.
Definition MinFromTime (ms : Z) : Z := (ms / 60000) mod 60.
Definition SecFromTime (ms : Z) : Z := (ms / 1000) mod 60.

(** Year, month (1..12) and day of the month of a day number in the
    proleptic Gregorian calendar. *)
Definition civil (days : Z) : Z * Z * Z :=
  let z := days + 719468 in
  let era := z / 146097 in
  let doe := z - era * 146097 in
  let yoe := (doe - doe / 1460 + doe / 36524 - doe / 146096) / 365 in
  let doy := doe - (365 * yoe + yoe / 4 - yoe / 100) in
  let mp := (5 * doy + 2) / 153 in
  let d := doy - (153 * mp + 2) / 5 + 1 in
  let m := if mp <? 10 then mp + 3 else mp - 9 in
  let y := yoe + era * 400 + (if m <=? 2 then 1 else 0) in
  (y, m, d).

Definition dayName (w : Z) : jsstring :=
  nth (Z.to_nat w)
      (List.map js ["Sun"; "Mon"; "Tue"; "Wed"; "Thu"; "Fri"; "Sat"]%string) [].

Definition monthName (m : Z) : jsstring :=
  nth (Z.to_nat (m - 1))
      (List.map js ["Jan"; "Feb"; "Mar"; "Apr"; "May"; "Jun";
                    "Jul"; "Aug"; "Sep"; "Oct"; "Nov"; "Dec"]%string) [].

Definition toUTCString (d : t) : jsstring :=
  match tv d with
  | None => js "Invalid Date"
  | Some ms =>
      let '(y, m, dd) := civil (Day ms) in
      dayName (WeekDay ms) ++ js ", " ++ pad2 dd ++ js " " ++ monthName m
      ++ js " " ++ (if y <? 0 then js "-" else []) ++ pad4 (Z.abs y)
      ++ js " " ++ pad2 (HourFromTime ms) ++ js ":" ++ pad2 (MinFromTime ms)
      ++ js ":" ++ pad2 (SecFromTime ms) ++ js " GMT"
  end.

End Date.

(** ** Cookie options

    [SetWebCookieOptions] and [SetServerCookieOptions] declare the same
    eight optional fields; TypeScript types are structural, so both are
    one record.  An absent field ([undefined]) is [None]. *)

Inductive SameSite : Type :=
| Lax
| Strict
| None'.

Definition SameSite_string (s : SameSite) : jsstring :=
  match s with
  | Lax => js "Lax"
  | Strict => js "Strict"
  | None' => js "None"
  end.

Record CookieOptions : Type := mkOptions {
  domain : option jsstring;
  expiry : option Date.t;
  maxAge : option number;
  partitioned : option bool;
  path : option jsstring;
  sameSite : option SameSite;
  secure : option bool;
  httpOnly : option bool
}.

Definition SetWebCookieOptions : Type := CookieOptions.
Definition SetServerCookieOptions : Type := CookieOptions.

(** The object literal [{}]. *)
Definition no_options : CookieOptions :=
  mkOptions None None None None None None None None.

(** An object literal is a sequence of property definitions, evaluated in
    the order they are written; a later definition of the same property
    replaces an earlier one. *)
Inductive property : Type :=
| p_domain (d : jsstring)
| p_expiry (d : Date.t)
| p_maxAge (n : number)
| p_partitioned (b : bool)
| p_path (s : jsstring)
| p_sameSite (s : SameSite)
| p_secure (b : bool)
| p_httpOnly (b : bool).

Inductive property_name : Type :=
| n_domain | n_expiry | n_maxAge | n_partitioned
| n_path | n_sameSite | n_secure | n_httpOnly.

Definition name_of (p : property) : property_name :=
  match p with
  | p_domain _ => n_domain
  | p_expiry _ => n_expiry
  | p_maxAge _ => n_maxAge
  | p_partitioned _ => n_partitioned
  | p_path _ => n_path
  | p_sameSite _ => n_sameSite
  | p_secure _ => n_secure
  | p_httpOnly _ => n_httpOnly
  end.

Definition define (o : CookieOptions) (p : property) : CookieOptions :=
  match p with
  | p_domain d =>
      mkOptions (Some d) (expiry o) (maxAge o) (partitioned o) (path o)
                (sameSite o) (secure o) (httpOnly o)
  | p_expiry d =>
      mkOptions (domain o) (Some d) (maxAge o) (partitioned o) (path o)
                (sameSite o) (secure o) (httpOnly o)
  | p_maxAge n =>
      mkOptions (domain o) (expiry o) (Some n) (partitioned o) (path o)
                (sameSite o) (secure o) (httpOnly o)
  | p_partitioned b =>
      mkOptions (domain o) (expiry o) (maxAge o) (Some b) (path o)
                (sameSite o) (secure o) (httpOnly o)
  | p_path s =>
      mkOptions (domain o) (expiry o) (maxAge o) (partitioned o) (Some s)
                (sameSite o) (secure o) (httpOnly o)
  | p_sameSite s =>
      mkOptions (domain o) (expiry o) (maxAge o) (partitioned o) (path o)
                (Some s) (secure o) (httpOnly o)
  | p_secure b =>
      mkOptions (domain o) (expiry o) (maxAge o) (partitioned o) (path o)
                (sameSite o) (Some b) (httpOnly o)
  | p_httpOnly b =>
      mkOptions (domain o) (expiry o) (maxAge o) (partitioned o) (path o)
                (sameSite o) (secure o) (Some b)
  end.

Definition object_literal (ps : list property) : CookieOptions :=
  fold_left define ps no_options.

(** ** ToBoolean, as applied by [if (x)] to each kind of option value *)

Definition truthy_string (s : jsstring) : bool :=
  negb (Nat.eqb (List.length s) 0).
Definition truthy_number (x : number) : bool :=
  match x with
  | NaN => false
  | Integer n _ => negb (n =? 0)
  | Inexact _ => true
  end.
Definition truthy_object {A : Type} (_ : A) : bool := true.
Definition truthy_boolean (b : bool) : bool := b.
Definition truthy_sameSite (s : SameSite) : bool :=
  truthy_string (SameSite_string s).

(** [if (x) cookieValue += text] for an optional field [x]. *)
Definition append_if {A : Type} (ToBoolean : A -> bool) (x : option A)
    (text : A -> jsstring) (cookieValue : jsstring) : jsstring :=
  match x with
  | Some a => if ToBoolean a then cookieValue ++ text a else cookieValue
  | None => cookieValue
  end.

(** ** The server formatter (pastry.ts, [_server]) *)

Definition _server (key value : jsstring)
    (options : option SetServerCookieOptions) : result jsstring :=
  encoded <- encodeURIComponent value ;;
  let cookieValue := key ++ js "=" ++ encoded in
  match options with
  | Some o =>
      let cookieValue :=
        append_if truthy_string (domain o)
                  (fun domain => js "; Domain=" ++ domain) cookieValue in
      let cookieValue :=
        append_if truthy_object (expiry o)
                  (fun expiry => js "; Expires=" ++ Date.toUTCString expiry)
                  cookieValue in
      let cookieValue :=
        append_if truthy_number (maxAge o)
                  (fun maxAge => js "; Max-Age=" ++ ToString maxAge)
                  cookieValue in
      let cookieValue :=
        append_if truthy_boolean (partitioned o)
                  (fun _ => js "; Partitioned") cookieValue in
      let cookieValue :=
        append_if truthy_string (path o)
                  (fun path => js "; Path=" ++ path) cookieValue in
      let cookieValue :=
        append_if truthy_sameSite (sameSite o)
                  (fun sameSite => js "; SameSite=" ++ SameSite_string sameSite)
                  cookieValue in
      let cookieValue :=
        append_if truthy_boolean (secure o)
                  (fun _ => js "; Secure") cookieValue in
      let cookieValue :=
        append_if truthy_boolean (httpOnly o)
                  (fun _ => js "; HttpOnly") cookieValue in
      Ok cookieValue
  | None => Ok cookieValue
  end.

(** ** The ambient cookie jar

    [document.cookie] is an accessor property of the host: reading it
    yields the combined cookie line, assigning to it hands one cookie
    string to the host.  The web helpers are parametric in the host. *)

Class CookieJar (J : Type) : Type := {
  cookie : J -> jsstring;
  set_cookie : jsstring -> J -> J
}.

(** The global scope, as far as the identifier [document] goes: there is
    no such binding (as outside a browser), or it is bound to a host
    document ([Some d]) or to a falsy value ([None]). *)
Inductive global (J : Type) : Type :=
| undeclared
| declared (value : option J).

Arguments undeclared {J}.
Arguments declared {J} value.

(** Evaluating the identifier [document]: an unresolvable reference
    raises a ReferenceError. *)
Definition evaluate {J : Type} (document : global J) : result (option J) :=
  match document with
  | undeclared => Throw ReferenceError
  | declared value => Ok value
  end.

(** [arr.some(cb)] with a callback that updates captured variables of
    type [S]: elements are visited in order until the callback returns a
    truthy value. *)
Fixpoint some {A S : Type} (cb : A -> S -> bool * S) (l : list A) (s : S)
  : bool * S :=
  match l with
  | [] => (false, s)
  | a :: l' =>
      let (b, s') := cb a s in
      if b then (true, s') else some cb l' s'
  end.

(** [arr.map(cb)] used for its effects on a captured variable of type [S]
    (the array it returns is dropped); the callback may throw. *)
Fixpoint for_each {A S : Type} (cb : A -> S -> result S) (l : list A) (s : S)
  : result S :=
  match l with
  | [] => Ok s
  | a :: l' => s' <- cb a s ;; for_each cb l' s'
  end.

(** [arr.push(x)] *)
Definition push {A : Type} (arr : list A) (x : A) : list A := arr ++ [x].

(** ToBoolean of a [string | null]. *)
Definition truthy_string_or_null (x : option jsstring) : bool :=
  match x with
  | Some s => truthy_string s
  | None => false
  end.

Definition semicolon : code_unit := 59.
Definition equals_sign : code_unit := 61.

(** ** The web helpers (pastry.ts, [_web])

    Every helper starts from the state of the global [document].  A
    helper that assigns to [document.cookie] returns that state after the
    call next to its result. *)

Section Web.

Context {J : Type} `{CookieJar J}.

Definition _set (key value : jsstring) (options : option SetWebCookieOptions)
    (document : global J) : result (bool * global J) :=
  encoded <- encodeURIComponent value ;;
  let cookieValue := key ++ js "=" ++ encoded in
  let cookieValue :=
    match options with
    | Some o =>
        let cookieValue :=
          append_if truthy_string (domain o)
                    (fun domain => js "; Domain=" ++ domain) cookieValue in
        let cookieValue :=
          append_if truthy_object (expiry o)
                    (fun expiry => js "; Expires=" ++ Date.toUTCString expiry)
                    cookieValue in
        let cookieValue :=
          append_if truthy_number (maxAge o)
                    (fun maxAge => js "; Max-Age=" ++ ToString maxAge)
                    cookieValue in
        let cookieValue :=
          append_if truthy_boolean (partitioned o)
                    (fun _ => js "; Partitioned") cookieValue in
        let cookieValue :=
          append_if truthy_string (path o)
                    (fun path => js "; Path=" ++ path) cookieValue in
        let cookieValue :=
          append_if truthy_sameSite (sameSite o)
                    (fun sameSite =>
                       js "; SameSite=" ++ SameSite_string sameSite)
                    cookieValue in
        let cookieValue :=
          append_if truthy_boolean (secure o)
                    (fun _ => js "; Secure") cookieValue in
        append_if truthy_boolean (httpOnly o)
                  (fun _ => js "; HttpOnly") cookieValue
    | None => cookieValue
    end in
  value_of_document <- evaluate document ;;
  match value_of_document with
  | Some d =>
      let d := set_cookie cookieValue d in
      encoded' <- encodeURIComponent value ;;
      if includes (cookie d) (key ++ js "=" ++ encoded')
      then Ok (true, declared (Some d))
      else Ok (false, declared (Some d))
  | None => Ok (false, document)
  end.

Definition _get (key : jsstring) (document : global J)
  : result (option jsstring) :=
  value_of_document <- evaluate document ;;
  match value_of_document with
  | Some d =>
      let cookies := split semicolon (cookie d) in
      let returnValue : option jsstring := None in
      let '(_, returnValue) :=
        some (fun cookie returnValue =>
                if startsWith (trim cookie) (key ++ js "=")
                then (false, Some (replace cookie (key ++ js "=") (js "")))
                else (false, returnValue))
             cookies returnValue in
      Ok returnValue
  | None => Ok None
  end.

Definition _delete (key : jsstring) (document : global J)
  : result (bool * global J) :=
  keyExists <- _get key document ;;
  if negb (truthy_string_or_null keyExists) then Ok (false, document)
  else _set key (js "")
            (Some (object_literal
                     [p_maxAge (int 0); p_secure false; p_path (js "/")]))
            document.

Definition _update (key value : jsstring)
    (options : option SetWebCookieOptions) (document : global J)
  : result (bool * global J) :=
  keyExists <- _get key document ;;
  if negb (truthy_string_or_null keyExists) then Ok (false, document)
  else _set key value options document.

Definition _keys (document : global J) : result (option (list jsstring)) :=
  value_of_document <- evaluate document ;;
  match value_of_document with
  | Some d =>
      if Nat.eqb (List.length (cookie d)) 0 then Ok None
      else
        let cookies := split semicolon (cookie d) in
        cookieKeys <-
          for_each (fun cookie cookieKeys =>
                      k <- trim_of (index (split equals_sign cookie) 0) ;;
                      Ok (push cookieKeys k))
                   cookies [] ;;
        Ok (if Nat.eqb (List.length cookieKeys) 0 then None
            else Some cookieKeys)
  | None => Ok None
  end.

Definition _values (document : global J) : result (option (list jsstring)) :=
  value_of_document <- evaluate document ;;
  match value_of_document with
  | Some d =>
      if Nat.eqb (List.length (cookie d)) 0 then Ok None
      else
        let cookies := split semicolon (cookie d) in
        cookieValues <-
          for_each (fun cookie cookieValues =>
                      v <- trim_of (index (split equals_sign cookie) 1) ;;
                      Ok (push cookieValues v))
                   cookies [] ;;
        Ok (if Nat.eqb (List.length cookieValues) 0 then None
            else Some cookieValues)
  | None => Ok None
  end.

End Web.

(** ** An in-memory host

    A jar that keeps name/value pairs: assigning a cookie string stores
    the pair before the first [";"], replacing a pair of the same name,
    and removes the name when the string carries the attribute
    [Max-Age=0]; reading joins the pairs with ["; "]. *)

Module MemoryJar.

Definition t : Type := list (jsstring * jsstring).

Fixpoint break_at (sep : code_unit) (s : jsstring) : jsstring * jsstring :=
  match s with
  | [] => ([], [])
  | c :: s' =>
      if c =? sep then ([], s')
      else let (a, b) := break_at sep s' in (c :: a, b)
  end.

Fixpoint remove (name : jsstring) (j : t) : t :=
  match j with
  | [] => []
  | (n, v) :: j' => if eqb n name then remove name j' else (n, v) :: remove name j'
  end.

Fixpoint upsert (name value : jsstring) (j : t) : t :=
  match j with
  | [] => [(name, value)]
  | (n, v) :: j' =>
      if eqb n name then (name, value) :: j' else (n, v) :: upsert name value j'
  end.

Definition write (raw : jsstring) (j : t) : t :=
  match split semicolon raw with
  | [] => j
  | first :: attributes =>
      let (name, value) := break_at equals_sign first in
      if existsb (fun a => eqb (trim a) (js "Max-Age=0")) attributes
      then remove (trim name) j
      else upsert (trim name) (trim value) j
  end.

Fixpoint read (j : t) : jsstring :=
  match j with
  | [] => []
  | [(n, v)] => n ++ js "=" ++ v
  | (n, v) :: j' => n ++ js "=" ++ v ++ js "; " ++ read j'
  end.

(** Parse a cookie line into a jar. *)
Definition of_line (line : jsstring) : t :=
  if Nat.eqb (List.length line) 0 then []
  else List.map (fun seg => let (n, v) := break_at equals_sign seg in
                            (trim n, trim v))
                (split semicolon line).

End MemoryJar.

#[export] Instance MemoryJar_CookieJar : CookieJar MemoryJar.t := {
  cookie := MemoryJar.read;
  set_cookie := MemoryJar.write
}.

(** A host that shows a fixed cookie line and records, in order, every
    string assigned to [document.cookie]. *)
Record Recorder : Type := recorder {
  line : jsstring;
  assigned : list jsstring
}.

#[export] Instance Recorder_CookieJar : CookieJar Recorder := {
  cookie := line;
  set_cookie := fun s r => recorder (line r) (assigned r ++ [s])
}.

(** ** The attributes

    The eight attributes in their order of emission and their names. *)

Inductive attribute : Type :=
| Domain | Expires | Max_Age | Partitioned
| Path | SameSite_ | Secure | HttpOnly.

Definition attribute_order : list attribute :=
  [Domain; Expires; Max_Age; Partitioned; Path; SameSite_; Secure; HttpOnly].

Definition attribute_name (a : attribute) : jsstring :=
  match a with
  | Domain => js "Domain"
  | Expires => js "Expires"
  | Max_Age => js "Max-Age"
  | Partitioned => js "Partitioned"
  | Path => js "Path"
  | SameSite_ => js "SameSite"
  | Secure => js "Secure"
  | HttpOnly => js "HttpOnly"
  end.

(** *** What the code emits

    A summary of the code's own tests ([if (domain)], [if (maxAge)], ...):
    for an attribute the code appends nothing ([None]), the bare name
    ([Some None]) or the name with a value ([Some (Some v)]). *)
Definition with_value {A : Type} (ToBoolean : A -> bool) (x : option A)
    (text : A -> jsstring) : option (option jsstring) :=
  match x with
  | Some a => if ToBoolean a then Some (Some (text a)) else None
  | None => None
  end.

Definition flag (x : option bool) : option (option jsstring) :=
  match x with
  | Some true => Some None
  | _ => None
  end.

Definition emitted (o : CookieOptions) (a : attribute)
  : option (option jsstring) :=
  match a with
  | Domain => with_value truthy_string (domain o) (fun d => d)
  | Expires => with_value truthy_object (expiry o) Date.toUTCString
  | Max_Age => with_value truthy_number (maxAge o) ToString
  | Partitioned => flag (partitioned o)
  | Path => with_value truthy_string (path o) (fun p => p)
  | SameSite_ => with_value truthy_sameSite (sameSite o) SameSite_string
  | Secure => flag (secure o)
  | HttpOnly => flag (httpOnly o)
  end.

(** What a boolean flag contributes: its text when [true], nothing when
    [false] or absent. *)
Definition bare_flag (text : jsstring) (x : option bool) : jsstring :=
  match x with
  | Some true => text
  | Some false => []
  | None => []
  end.

Definition attribute_text (o : CookieOptions) (a : attribute) : jsstring :=
  match emitted o a with
  | Some (Some v) => js "; " ++ attribute_name a ++ js "=" ++ v
  | Some None => js "; " ++ attribute_name a
  | None => []
  end.

Definition attributes (o : CookieOptions) : jsstring :=
  flat_map (attribute_text o) attribute_order.

(** *** The serializer as the specification words it

    For each present optional attribute, append ["; Name"] or
    ["; Name=Value"], in the order of [attribute_order].  A valued
    attribute is present when its option is supplied, a maxAge of 0
    included; a flag is present when its option is [true]. *)
Definition present (o : CookieOptions) (a : attribute)
  : option (option jsstring) :=
  match a with
  | Domain => option_map (fun d => Some d) (domain o)
  | Expires => option_map (fun d => Some (Date.toUTCString d)) (expiry o)
  | Max_Age => option_map (fun n => Some (ToString n)) (maxAge o)
  | Partitioned =>
      match partitioned o with Some true => Some None | _ => None end
  | Path => option_map (fun p => Some p) (path o)
  | SameSite_ => option_map (fun s => Some (SameSite_string s)) (sameSite o)
  | Secure => match secure o with Some true => Some None | _ => None end
  | HttpOnly => match httpOnly o with Some true => Some None | _ => None end
  end.

Definition present_text (o : CookieOptions) (a : attribute) : jsstring :=
  match present o a with
  | Some (Some v) => js "; " ++ attribute_name a ++ js "=" ++ v
  | Some None => js "; " ++ attribute_name a
  | None => []
  end.

Definition serialize_spec (key encoded : jsstring)
    (options : option CookieOptions) : jsstring :=
  key ++ js "=" ++ encoded ++
  match options with
  | Some o => flat_map (present_text o) attribute_order
  | None => []
  end.

(** No supplied option is an empty string, a zero or NaN. *)
Definition no_falsy_value (o : CookieOptions) : bool :=
  match domain o with Some [] => false | _ => true end
  && match maxAge o with
     | Some NaN => false
     | Some (Integer n _) => negb (n =? 0)
     | _ => true
     end
  && match path o with Some [] => false | _ => true end.

(** The string both routines build once the value is encoded. *)
Definition cookie_string (key encoded : jsstring)
    (options : option CookieOptions) : jsstring :=
  key ++ js "=" ++ encoded ++
  match options with
  | Some o => attributes o
  | None => []
  end.

(** ** [get] as the specification words it

    Split the snapshot on [";"], trim each segment, take the first
    segment whose trimmed form has the prefix [key=], strip the prefix and
    return the remainder; [null] without such a segment or without a jar. *)
Definition get_spec (key : jsstring) (snapshot : option jsstring)
  : option jsstring :=
  match snapshot with
  | Some line =>
      match find (fun seg => startsWith seg (key ++ js "="))
                 (List.map trim (split semicolon line)) with
      | Some seg => Some (skipn (List.length (key ++ js "=")) seg)
      | None => None
      end
  | None => None
  end.

(** One step of the traversal in [_get]: a segment whose trimmed form
    starts with [key=] overwrites the value found so far. *)
Definition select (key : jsstring) (returnValue : option jsstring)
    (segment : jsstring) : option jsstring :=
  if startsWith (trim segment) (key ++ js "=")
  then Some (replace segment (key ++ js "=") (js ""))
  else returnValue.

(** The snapshot holds the key with the empty string as its value: some
    segment is, once trimmed, exactly [key=]. *)
Definition stored_empty (key line : jsstring) : Prop :=
  exists seg, In seg (split semicolon line) /\ trim seg = key ++ js "=".

(** ** The factories (pastry.ts, [_web] and [pastry])

    [_web()] returns the six helpers as one object, [pastry()] returns
    the server formatter next to [_web]. *)

Module Pastry.

Record WebCookieHelpers (J : Type) : Type := mkWeb {
  set : jsstring -> jsstring -> option SetWebCookieOptions -> global J
        -> result (bool * global J);
  get : jsstring -> global J -> result (option jsstring);
  delete : jsstring -> global J -> result (bool * global J);
  update : jsstring -> jsstring -> option SetWebCookieOptions -> global J
           -> result (bool * global J);
  keys : global J -> result (option (list jsstring));
  values : global J -> result (option (list jsstring))
}.

Definition _web {J : Type} `{CookieJar J} (_ : unit) : WebCookieHelpers J :=
  mkWeb J _set _get _delete _update _keys _values.

Record PastryMethods (J : Type) : Type := mkPastry {
  web : unit -> WebCookieHelpers J;
  server : jsstring -> jsstring -> option SetServerCookieOptions
           -> result jsstring
}.

Definition pastry {J : Type} `{CookieJar J} (_ : unit) : PastryMethods J :=
  mkPastry J _web _server.

End Pastry.

(** ** Vocabulary for the properties below *)

(** A key that does not begin with white space. *)
Definition starts_clean (key : jsstring) : bool :=
  match key with
  | [] => true
  | c :: _ => negb (isWhiteSpace c)
  end.

(** Every field of an option object is absent or falsy: the empty string,
    zero, NaN, [false].  A Date and a SameSite value are always truthy. *)
Definition falsy_string (x : option jsstring) : bool :=
  match x with
  | Some s => negb (truthy_string s)
  | None => true
  end.

Definition falsy_boolean (x : option bool) : bool :=
  match x with
  | Some b => negb b
  | None => true
  end.

Definition absent {A : Type} (x : option A) : bool :=
  match x with
  | Some _ => false
  | None => true
  end.

Definition all_falsy (o : CookieOptions) : bool :=
  falsy_string (domain o) && absent (expiry o)
  && match maxAge o with
     | Some NaN => true
     | Some (Integer n _) => n =? 0
     | Some (Inexact _) => false
     | None => true
     end
  && falsy_boolean (partitioned o) && falsy_string (path o)
  && absent (sameSite o) && falsy_boolean (secure o)
  && falsy_boolean (httpOnly o).

(** The code units [encodeURIComponent] can produce. *)
Definition uri_safe (c : code_unit) : bool := uriUnescaped c || (c =? 37).

(** ** Elementary facts about the error monad and the string built-ins *)

Lemma Ok_eq_iff {A : Type} (a b : A) : Ok a = Ok b <-> a = b.
Proof. split; [now intros [= ->] | now intros ->]. Qed.

Lemma bind_Ok_inv {A B : Type} (m : result A) (k : A -> result B) (b : B) :
  bind m k = Ok b -> exists a, m = Ok a /\ k a = Ok b.
Proof. destruct m as [a|e]; simpl; intros E; [eauto | discriminate]. Qed.

Lemma js_equals : js "=" = [equals_sign].
Proof. reflexivity. Qed.

Lemma startsWith_app (p s : jsstring) : startsWith (p ++ s) p = true.
Proof.
  induction p as [|c p IH]; simpl; [reflexivity|].
  now rewrite Z.eqb_refl, IH.
Qed.

Lemma skipn_app_exact {A : Type} (l r : list A) :
  skipn (List.length l) (l ++ r) = r.
Proof. induction l; simpl; auto. Qed.

(** ** The serializer, attribute by attribute *)

Lemma append_if_app {A : Type} (T : A -> bool) (x : option A)
    (text : A -> jsstring) (cv : jsstring) :
  append_if T x text cv = cv ++ append_if T x text [].
Proof.
  unfold append_if. destruct x as [a|]; [destruct (T a)|];
    simpl; now rewrite ?app_nil_r.
Qed.

Lemma attribute_text_Domain o :
  append_if truthy_string (domain o) (fun d => js "; Domain=" ++ d) []
  = attribute_text o Domain.
Proof.
  unfold attribute_text, emitted, with_value, append_if.
  destruct (domain o) as [d|]; [destruct (truthy_string d)|]; reflexivity.
Qed.

Lemma attribute_text_Expires o :
  append_if truthy_object (expiry o)
            (fun d => js "; Expires=" ++ Date.toUTCString d) []
  = attribute_text o Expires.
Proof.
  unfold attribute_text, emitted, with_value, append_if.
  destruct (expiry o) as [d|]; reflexivity.
Qed.

Lemma attribute_text_Max_Age o :
  append_if truthy_number (maxAge o) (fun n => js "; Max-Age=" ++ ToString n) []
  = attribute_text o Max_Age.
Proof.
  unfold attribute_text, emitted, with_value, append_if.
  destruct (maxAge o) as [n|]; [destruct (truthy_number n)|]; reflexivity.
Qed.

Lemma attribute_text_Path o :
  append_if truthy_string (path o) (fun p => js "; Path=" ++ p) []
  = attribute_text o Path.
Proof.
  unfold attribute_text, emitted, with_value, append_if.
  destruct (path o) as [d|]; [destruct (truthy_string d)|]; reflexivity.
Qed.

Lemma attribute_text_SameSite o :
  append_if truthy_sameSite (sameSite o)
            (fun s => js "; SameSite=" ++ SameSite_string s) []
  = attribute_text o SameSite_.
Proof.
  unfold attribute_text, emitted, with_value, append_if.
  destruct (sameSite o) as [[]|]; reflexivity.
Qed.

Lemma attribute_text_flag (x : option bool) (name : jsstring) :
  append_if truthy_boolean x (fun _ => js "; " ++ name) []
  = match flag x with
    | Some (Some v) => js "; " ++ name ++ js "=" ++ v
    | Some None => js "; " ++ name
    | None => []
    end.
Proof. destruct x as [[]|]; reflexivity. Qed.

Lemma attributes_appended (o : CookieOptions) (cv : jsstring) :
  append_if truthy_boolean (httpOnly o) (fun _ => js "; HttpOnly")
    (append_if truthy_boolean (secure o) (fun _ => js "; Secure")
      (append_if truthy_sameSite (sameSite o)
                 (fun s => js "; SameSite=" ++ SameSite_string s)
        (append_if truthy_string (path o) (fun p => js "; Path=" ++ p)
          (append_if truthy_boolean (partitioned o)
                     (fun _ => js "; Partitioned")
            (append_if truthy_number (maxAge o)
                       (fun n => js "; Max-Age=" ++ ToString n)
              (append_if truthy_object (expiry o)
                         (fun d => js "; Expires=" ++ Date.toUTCString d)
                (append_if truthy_string (domain o)
                           (fun d => js "; Domain=" ++ d) cv)))))))
  = cv ++ attributes o.
Proof.
  rewrite (append_if_app _ (httpOnly o)), (append_if_app _ (secure o)),
    (append_if_app _ (sameSite o)), (append_if_app _ (path o)),
    (append_if_app _ (partitioned o)), (append_if_app _ (maxAge o)),
    (append_if_app _ (expiry o)), (append_if_app _ (domain o)).
  rewrite attribute_text_Domain, attribute_text_Expires,
    attribute_text_Max_Age, attribute_text_Path, attribute_text_SameSite.
  change (fun _ : bool => js "; Partitioned")
    with (fun _ : bool => js "; " ++ attribute_name Partitioned).
  change (fun _ : bool => js "; Secure")
    with (fun _ : bool => js "; " ++ attribute_name Secure).
  change (fun _ : bool => js "; HttpOnly")
    with (fun _ : bool => js "; " ++ attribute_name HttpOnly).
  rewrite !attribute_text_flag.
  unfold attributes, attribute_order. cbn [flat_map].
  rewrite app_nil_r, <- !app_assoc. reflexivity.
Qed.

Lemma _server_cookie_string key value options :
  _server key value options =
  (encoded <- encodeURIComponent value ;;
   Ok (cookie_string key encoded options)).
Proof.
  unfold _server, cookie_string.
  destruct (encodeURIComponent value) as [e|err]; simpl; [|reflexivity].
  destruct options as [o|]; [|now rewrite app_nil_r].
  rewrite attributes_appended. now rewrite <- !app_assoc.
Qed.

Section WebFacts.

Context {J : Type} `{CookieJar J}.

(** What [_set] does once the value is encoded: one assignment of the
    cookie string, then the check on the line read back. *)
Lemma _set_cookie_string key value options (document : option J) :
  _set key value options (declared document) =
  (encoded <- encodeURIComponent value ;;
   match document with
   | Some d =>
       let d' := set_cookie (cookie_string key encoded options) d in
       Ok (includes (cookie d') (key ++ js "=" ++ encoded), declared (Some d'))
   | None => Ok (false, declared None)
   end).
Proof.
  unfold _set, cookie_string.
  destruct (encodeURIComponent value) as [e|err] eqn:E; simpl; [|reflexivity].
  destruct document as [d|]; [|reflexivity].
  assert (S : forall s t : jsstring, s = t ->
            (if includes (cookie (set_cookie s d)) (key ++ js "=" ++ e)
             then Ok (true, declared (Some (set_cookie s d)))
             else Ok (false, declared (Some (set_cookie s d))))
            = Ok (includes (cookie (set_cookie t d)) (key ++ js "=" ++ e),
                  declared (Some (set_cookie t d)))).
  { intros s t ->. now destruct (includes _ _). }
  apply S. destruct options as [o|]; [|now rewrite app_nil_r].
  rewrite attributes_appended. now rewrite <- !app_assoc.
Qed.

(** Without a binding for [document] the string is still built first:
    a value that cannot be encoded raises its URIError, any other call
    the ReferenceError. *)
Lemma _set_undeclared key value options :
  _set key value options (undeclared (J:=J))
  = (encoded <- encodeURIComponent value ;; Throw ReferenceError).
Proof.
  unfold _set. now destruct (encodeURIComponent value).
Qed.

End WebFacts.

(** ** Percent-encoding round trip *)

Lemma hex_value_digit (n : Z) :
  0 <= n < 16 -> hex_value (hex_digit n) = Some n.
Proof.
  intros Hn. unfold hex_value, hex_digit.
  destruct (Z.ltb_spec n 10).
  - replace ((48 <=? 48 + n) && (48 + n <=? 57)) with true
      by (symmetry; apply andb_true_iff; split; apply Z.leb_le; lia).
    f_equal; lia.
  - replace ((48 <=? 55 + n) && (55 + n <=? 57)) with false
      by (symmetry; apply andb_false_iff; right; apply Z.leb_gt; lia).
    replace ((65 <=? 55 + n) && (55 + n <=? 70)) with true
      by (symmetry; apply andb_true_iff; split; apply Z.leb_le; lia).
    f_equal; lia.
Qed.

Lemma ParseHexOctet_escape (b : Z) :
  0 <= b < 256 ->
  ParseHexOctet (hex_digit (b / 16)) (hex_digit (b mod 16)) = Some b.
Proof.
  intros Hb. unfold ParseHexOctet.
  rewrite !hex_value_digit by (Z.div_mod_to_equations; lia).
  f_equal. Z.div_mod_to_equations; lia.
Qed.

Lemma octet_after_escape (b : Z) :
  0 <= b < 256 ->
  octet_after 37 (hex_digit (b / 16)) (hex_digit (b mod 16)) = Some b.
Proof. intros Hb. unfold octet_after. simpl. now apply ParseHexOctet_escape. Qed.

Lemma decode_percent (h1 l1 : code_unit) (r1 : jsstring) :
  decodeURIComponent (37 :: h1 :: l1 :: r1) =
  match ParseHexOctet h1 l1 with
  | None => Throw URIError
  | Some B =>
    if B <? 128 then r <- decodeURIComponent r1 ;; Ok (B :: r)
    else if B <? 192 then Throw URIError
    else if B <? 224 then
      match r1 with
      | p2 :: h2 :: l2 :: r2 =>
        match octet_after p2 h2 l2 with
        | Some b2 => emit (utf8_decode2 B b2) (decodeURIComponent r2)
        | None => Throw URIError
        end
      | _ => Throw URIError
      end
    else if B <? 240 then
      match r1 with
      | p2 :: h2 :: l2 :: p3 :: h3 :: l3 :: r3 =>
        match octet_after p2 h2 l2, octet_after p3 h3 l3 with
        | Some b2, Some b3 =>
            emit (utf8_decode3 B b2 b3) (decodeURIComponent r3)
        | _, _ => Throw URIError
        end
      | _ => Throw URIError
      end
    else if B <? 248 then
      match r1 with
      | p2 :: h2 :: l2 :: p3 :: h3 :: l3 :: p4 :: h4 :: l4 :: r4 =>
        match octet_after p2 h2 l2, octet_after p3 h3 l3,
              octet_after p4 h4 l4 with
        | Some b2, Some b3, Some b4 =>
            emit (utf8_decode4 B b2 b3 b4) (decodeURIComponent r4)
        | _, _, _ => Throw URIError
        end
      | _ => Throw URIError
      end
    else Throw URIError
  end.
Proof. reflexivity. Qed.

Lemma decode_literal (c : code_unit) (rest : jsstring) :
  c <> 37 ->
  decodeURIComponent (c :: rest) = (r <- decodeURIComponent rest ;; Ok (c :: r)).
Proof.
  intros Hc. cbn [decodeURIComponent].
  now destruct (Z.eqb_spec c 37).
Qed.

Ltac range_ltb :=
  repeat match goal with
  | |- context [?a <? ?b] =>
      first [ replace (a <? b) with true
                by (symmetry; apply Z.ltb_lt; Z.div_mod_to_equations; lia)
            | replace (a <? b) with false
                by (symmetry; apply Z.ltb_ge; Z.div_mod_to_equations; lia) ]
  | |- context [?a <=? ?b] =>
      first [ replace (a <=? b) with true
                by (symmetry; apply Z.leb_le; Z.div_mod_to_equations; lia)
            | replace (a <=? b) with false
                by (symmetry; apply Z.leb_gt; Z.div_mod_to_equations; lia) ]
  end.

Lemma decode_escape1 (c : Z) (r : jsstring) :
  0 <= c < 128 ->
  decodeURIComponent (escape_octets (utf8_octets c) ++ r)
  = (r' <- decodeURIComponent r ;; Ok (c :: r')).
Proof.
  intros Hc. unfold utf8_octets. range_ltb.
  unfold escape_octets, escape_octet. cbn [flat_map app].
  rewrite decode_percent, ParseHexOctet_escape by lia.
  range_ltb. reflexivity.
Qed.

Lemma decode_escape2 (c : Z) (r : jsstring) :
  128 <= c < 2048 ->
  decodeURIComponent (escape_octets (utf8_octets c) ++ r)
  = (r' <- decodeURIComponent r ;; Ok (c :: r')).
Proof.
  intros Hc. unfold utf8_octets. range_ltb.
  unfold escape_octets, escape_octet. cbn [flat_map app].
  rewrite decode_percent, ParseHexOctet_escape
    by (Z.div_mod_to_equations; lia).
  range_ltb.
  rewrite octet_after_escape by (Z.div_mod_to_equations; lia).
  unfold utf8_decode2, isContinuation. range_ltb. cbn [andb emit].
  unfold UTF16EncodeCodePoint. range_ltb.
  replace ((192 + c / 64 - 192) * 64 + (128 + c mod 64 - 128)) with c
    by (Z.div_mod_to_equations; lia).
  reflexivity.
Qed.

Lemma decode_escape3 (c : Z) (r : jsstring) :
  2048 <= c < 65536 -> ~ (55296 <= c <= 57343) ->
  decodeURIComponent (escape_octets (utf8_octets c) ++ r)
  = (r' <- decodeURIComponent r ;; Ok (c :: r')).
Proof.
  intros Hc Hs. unfold utf8_octets. range_ltb.
  unfold escape_octets, escape_octet. cbn [flat_map app].
  rewrite decode_percent, ParseHexOctet_escape
    by (Z.div_mod_to_equations; lia).
  range_ltb.
  rewrite !octet_after_escape by (Z.div_mod_to_equations; lia).
  unfold utf8_decode3, isContinuation.
  replace ((224 + c / 4096 - 224) * 4096 + (128 + (c / 64) mod 64 - 128) * 64
           + (128 + c mod 64 - 128)) with c
    by (Z.div_mod_to_equations; lia).
  range_ltb. cbn [andb].
  replace ((55296 <=? c) && (c <=? 57343)) with false.
  2:{ symmetry. apply andb_false_iff.
      destruct (Z.leb_spec 55296 c); [right; apply Z.leb_gt; lia | now left]. }
  cbn [negb emit].
  unfold UTF16EncodeCodePoint. range_ltb. reflexivity.
Qed.

Lemma decode_escape4 (c d : Z) (r : jsstring) :
  55296 <= c <= 56319 -> 56320 <= d <= 57343 ->
  decodeURIComponent
    (escape_octets (utf8_octets (UTF16SurrogatePairToCodePoint c d)) ++ r)
  = (r' <- decodeURIComponent r ;; Ok (c :: d :: r')).
Proof.
  intros Hc Hd.
  assert (Hcp : 65536 <= UTF16SurrogatePairToCodePoint c d <= 1114111)
    by (unfold UTF16SurrogatePairToCodePoint; lia).
  assert (Hlead : (UTF16SurrogatePairToCodePoint c d - 65536) / 1024 + 55296 = c)
    by (unfold UTF16SurrogatePairToCodePoint; Z.div_mod_to_equations; lia).
  assert (Htrail :
            (UTF16SurrogatePairToCodePoint c d - 65536) mod 1024 + 56320 = d)
    by (unfold UTF16SurrogatePairToCodePoint; Z.div_mod_to_equations; lia).
  generalize dependent (UTF16SurrogatePairToCodePoint c d). intros cp Hcp Hl Ht.
  unfold utf8_octets. range_ltb.
  unfold escape_octets, escape_octet. cbn [flat_map app].
  rewrite decode_percent, ParseHexOctet_escape
    by (Z.div_mod_to_equations; lia).
  range_ltb.
  rewrite !octet_after_escape by (Z.div_mod_to_equations; lia).
  unfold utf8_decode4, isContinuation.
  replace ((240 + cp / 262144 - 240) * 262144
           + (128 + (cp / 4096) mod 64 - 128) * 4096
           + (128 + (cp / 64) mod 64 - 128) * 64 + (128 + cp mod 64 - 128))
    with cp by (Z.div_mod_to_equations; lia).
  range_ltb. cbn [andb emit].
  unfold UTF16EncodeCodePoint. range_ltb. rewrite Hl, Ht.
  destruct (decodeURIComponent r); reflexivity.
Qed.

Lemma is_code_unit_range (c : Z) : is_code_unit c = true -> 0 <= c < 65536.
Proof. unfold is_code_unit. intros E. apply andb_true_iff in E as [? ?]. lia. Qed.

Lemma isLeadingSurrogate_range (c : Z) :
  isLeadingSurrogate c = true <-> 55296 <= c <= 56319.
Proof. unfold isLeadingSurrogate. rewrite andb_true_iff. lia. Qed.

Lemma isTrailingSurrogate_range (c : Z) :
  isTrailingSurrogate c = true <-> 56320 <= c <= 57343.
Proof. unfold isTrailingSurrogate. rewrite andb_true_iff. lia. Qed.

Lemma decode_escape (c : Z) (r : jsstring) :
  0 <= c < 65536 -> isLeadingSurrogate c = false ->
  isTrailingSurrogate c = false ->
  decodeURIComponent (escape_octets (utf8_octets c) ++ r)
  = (r' <- decodeURIComponent r ;; Ok (c :: r')).
Proof.
  intros Hc Hl Ht.
  assert (Hs : ~ (55296 <= c <= 57343)).
  { intros Hs. destruct (Z.le_gt_cases c 56319).
    - assert (isLeadingSurrogate c = true)
        by (apply isLeadingSurrogate_range; lia). congruence.
    - assert (isTrailingSurrogate c = true)
        by (apply isTrailingSurrogate_range; lia). congruence. }
  destruct (Z.lt_ge_cases c 128); [apply decode_escape1; lia|].
  destruct (Z.lt_ge_cases c 2048); [apply decode_escape2; lia|].
  apply decode_escape3; [lia | exact Hs].
Qed.

Lemma encode_decode_bounded (n : nat) (v : jsstring) :
  (List.length v <= n)%nat -> well_formed v = true ->
  exists e, encodeURIComponent v = Ok e /\ decodeURIComponent e = Ok v.
Proof.
  revert v. induction n as [|n IH]; intros [|c rest] Hlen Hwf;
    try (exists []; split; reflexivity); simpl in Hlen; [lia|].
  cbn [well_formed] in Hwf. apply andb_true_iff in Hwf as [Hcu Hwf].
  apply is_code_unit_range in Hcu.
  cbn [encodeURIComponent].
  destruct (uriUnescaped c) eqn:Hu.
  - assert (Hwf' : well_formed rest = true).
    { destruct (isLeadingSurrogate c) eqn:Hl.
      - exfalso. apply isLeadingSurrogate_range in Hl.
        unfold uriUnescaped in Hu. revert Hu. range_ltb.
        repeat match goal with
               | |- context [c =? ?k] =>
                   replace (c =? k) with false by (symmetry; apply Z.eqb_neq; lia)
               end.
        discriminate.
      - now apply andb_true_iff in Hwf as [_ Hwf]. }
    destruct (IH rest ltac:(lia) Hwf') as (e & He & Hd).
    exists (c :: e). rewrite He. split; [reflexivity|].
    rewrite decode_literal, Hd; [reflexivity|].
    intros ->. discriminate.
  - destruct (isLeadingSurrogate c) eqn:Hl.
    + destruct rest as [|d rest']; [discriminate|].
      apply andb_true_iff in Hwf as [Hd Hwf']. rewrite Hd.
      destruct (IH rest' ltac:(simpl in Hlen; lia) Hwf') as (e & He & Hdec).
      rewrite He. eexists. split; [reflexivity|].
      rewrite decode_escape4
        by first [now apply isLeadingSurrogate_range
                 | now apply isTrailingSurrogate_range].
      now rewrite Hdec.
    + apply andb_true_iff in Hwf as [Ht Hwf'].
      apply negb_true_iff in Ht. rewrite Ht.
      destruct (IH rest ltac:(lia) Hwf') as (e & He & Hdec).
      rewrite He. eexists. split; [reflexivity|].
      now rewrite decode_escape, Hdec.
Qed.

Lemma encode_decode (v : jsstring) :
  well_formed v = true ->
  exists e, encodeURIComponent v = Ok e /\ decodeURIComponent e = Ok v.
Proof. apply (encode_decode_bounded (List.length v)). lia. Qed.

(** ** Claims about the serializer *)

(** C3.  With no options both routines produce exactly the key, ["="] and
    the percent-encoded value, the key being copied as it is; dropping
    the ["key="] prefix and percent-decoding gives the value back.  This
    holds for every value [encodeURIComponent] accepts, that is every
    string of 16-bit code units without a lone surrogate, which covers
    all printable text. *)
Theorem serialize_no_options_roundtrip (key value : jsstring) :
  well_formed value = true ->
  exists encoded,
    encodeURIComponent value = Ok encoded /\
    _server key value None = Ok (key ++ js "=" ++ encoded) /\
    (forall (J : Type) (jar : CookieJar J) (d : J),
        exists ok,
          _set key value None (declared (Some d))
          = Ok (ok, declared (Some (set_cookie (key ++ js "=" ++ encoded) d)))) /\
    decodeURIComponent
      (skipn (List.length (key ++ js "=")) (key ++ js "=" ++ encoded))
    = Ok value.
Proof.
  intros Hwf. destruct (encode_decode value Hwf) as (e & He & Hd).
  exists e. split; [exact He|]. split; [|split].
  - rewrite _server_cookie_string, He. unfold cookie_string. simpl.
    now rewrite app_nil_r.
  - intros J jar d. rewrite _set_cookie_string, He.
    unfold cookie_string. simpl. rewrite app_nil_r. eauto.
  - now rewrite app_assoc, skipn_app_exact.
Qed.

Lemma serialize_no_options_roundtrip_witness :
  well_formed (js "a b;=%") = true /\
  exists encoded,
    encodeURIComponent (js "a b;=%") = Ok encoded /\
    _server (js "k") (js "a b;=%") None = Ok (js "k" ++ js "=" ++ encoded) /\
    (forall (J : Type) (jar : CookieJar J) (d : J),
        exists ok,
          _set (js "k") (js "a b;=%") None (declared (Some d))
          = Ok (ok, declared (Some (set_cookie (js "k" ++ js "=" ++ encoded) d)))) /\
    decodeURIComponent
      (skipn (List.length (js "k" ++ js "="))
             (js "k" ++ js "=" ++ encoded))
    = Ok (js "a b;=%").
Proof.
  split; [reflexivity|].
  apply (serialize_no_options_roundtrip (js "k") (js "a b;=%")). reflexivity.
Defined.

(** C8.  The server formatter returns the very string the client [set]
    assigns to the jar: for every host, [_set] is [_server] followed by
    one assignment of its result and the check on the line read back, and
    it throws exactly when [_server] throws, before any assignment. *)
Theorem server_string_is_set_string (key value : jsstring)
    (options : option CookieOptions) :
  (forall (J : Type) (jar : CookieJar J) (d : J),
      _set key value options (declared (Some d)) =
      (s <- _server key value options ;;
       encoded <- encodeURIComponent value ;;
       Ok (includes (cookie (set_cookie s d)) (key ++ js "=" ++ encoded),
           declared (Some (set_cookie s d))))) /\
  (forall r : Recorder,
      match _server key value options with
      | Ok s =>
          exists ok,
            _set key value options (declared (Some r))
            = Ok (ok, declared (Some (recorder (line r) (assigned r ++ [s]))))
      | Throw e => _set key value options (declared (Some r)) = Throw e
      end).
Proof.
  assert (G : forall (J : Type) (jar : CookieJar J) (d : J),
      _set key value options (declared (Some d)) =
      (s <- _server key value options ;;
       encoded <- encodeURIComponent value ;;
       Ok (includes (cookie (set_cookie s d)) (key ++ js "=" ++ encoded),
           declared (Some (set_cookie s d))))).
  { intros J jar d. rewrite _set_cookie_string, _server_cookie_string.
    now destruct (encodeURIComponent value) as [e|err] eqn:E; simpl; rewrite ?E. }
  split; [exact G|]. intros r. rewrite G.
  rewrite _server_cookie_string.
  destruct (encodeURIComponent value) as [e|err] eqn:E; simpl; rewrite ?E;
    simpl; eauto.
Qed.

(** Property definitions of distinct names commute. *)
Lemma define_comm (o : CookieOptions) (p q : property) :
  name_of p <> name_of q -> define (define o p) q = define (define o q) p.
Proof. destruct p, q; simpl; intros N; try reflexivity; now elim N. Qed.

Lemma fold_define_permutation (ps ps' : list property) :
  Permutation ps ps' -> NoDup (List.map name_of ps) ->
  forall o, fold_left define ps' o = fold_left define ps o.
Proof.
  induction 1 as [|p l l' HP IH|p q l|l l' l'' HP1 IH1 HP2 IH2];
    intros ND o; simpl in *.
  - reflexivity.
  - inversion ND; subst. now apply IH.
  - inversion ND as [|? ? Hin _]; subst.
    rewrite (define_comm o p q); [reflexivity|].
    intros E. apply Hin. left. now symmetry.
  - rewrite IH2, IH1; auto.
    eapply Permutation_NoDup; [|exact ND]. now apply Permutation_map.
Qed.

Lemma object_literal_permutation (ps ps' : list property) :
  NoDup (List.map name_of ps) -> Permutation ps ps' ->
  object_literal ps' = object_literal ps.
Proof. intros ND HP. now apply fold_define_permutation. Qed.

(** Where no supplied value is falsy, what the code appends for an
    attribute is what the specification has for a present attribute. *)
Lemma attribute_text_present (o : CookieOptions) (a : attribute) :
  no_falsy_value o = true -> attribute_text o a = present_text o a.
Proof.
  unfold no_falsy_value. intros E.
  apply andb_true_iff in E as [E Hp]. apply andb_true_iff in E as [Hd Hm].
  unfold attribute_text, present_text, emitted, present, with_value, flag.
  destruct a.
  - destruct (domain o) as [[|c d]|]; [discriminate|reflexivity|reflexivity].
  - destruct (expiry o); reflexivity.
  - destruct (maxAge o) as [[|n safe|text]|]; try discriminate;
      try reflexivity.
    cbn [truthy_number option_map]. now rewrite Hm.
  - destruct (partitioned o) as [[]|]; reflexivity.
  - destruct (path o) as [[|c d]|]; [discriminate|reflexivity|reflexivity].
  - destruct (sameSite o) as [[]|]; reflexivity.
  - destruct (secure o) as [[]|]; reflexivity.
  - destruct (httpOnly o) as [[]|]; reflexivity.
Qed.

(** Where no supplied value is an empty string, a zero or NaN, the code
    produces the string of the specification: the present attributes
    after ["key=encodedValue"], in the fixed order. *)
Lemma serializer_agrees_when_truthy (key value : jsstring)
    (o : CookieOptions) :
  no_falsy_value o = true ->
  _server key value (Some o)
  = (encoded <- encodeURIComponent value ;;
     Ok (serialize_spec key encoded (Some o))).
Proof.
  intros Ho. rewrite _server_cookie_string.
  destruct (encodeURIComponent value) as [e|err]; [|reflexivity].
  cbn [bind]. unfold cookie_string, serialize_spec, attributes.
  do 4 f_equal. unfold attribute_order. cbn [flat_map].
  now rewrite !(attribute_text_present o) by exact Ho.
Qed.

(** Two option objects written with the same properties in different
    orders serialize to the same string, on both paths. *)
Lemma serialization_ignores_property_order (key value : jsstring)
    (ps ps' : list property) :
  NoDup (List.map name_of ps) -> Permutation ps ps' ->
  _server key value (Some (object_literal ps'))
  = _server key value (Some (object_literal ps)) /\
  forall (J : Type) (jar : CookieJar J) (document : global J),
    _set key value (Some (object_literal ps')) document
    = _set key value (Some (object_literal ps)) document.
Proof.
  intros ND HP. now rewrite (object_literal_permutation ps ps' ND HP).
Qed.

(** C5.  The code at options that hold a maxAge of zero between a domain
    and a path: the specification's serializer writes the three present
    attributes in their order, Domain, Max-Age, Path; the code, on the
    server and on the client path, writes Domain and Path only, because
    [if (maxAge)] skips the zero.  With every supplied value truthy, here
    all eight options written in reverse order, the code's output is the
    specification's string. *)
Theorem present_maxAge_zero_is_skipped :
  serialize_spec (js "k") (js "v")
    (Some (object_literal
             [p_path (js "/p"); p_maxAge (int 0); p_domain (js "d")]))
  = js "k=v; Domain=d; Max-Age=0; Path=/p" /\
  _server (js "k") (js "v")
    (Some (object_literal
             [p_path (js "/p"); p_maxAge (int 0); p_domain (js "d")]))
  = Ok (js "k=v; Domain=d; Path=/p") /\
  _set (js "k") (js "v")
    (Some (object_literal
             [p_path (js "/p"); p_maxAge (int 0); p_domain (js "d")]))
    (declared (Some (recorder (js "") [])))
  = Ok (false,
        declared (Some (recorder (js "") [js "k=v; Domain=d; Path=/p"]))) /\
  _server (js "k") (js "v")
    (Some (object_literal
             [p_httpOnly true; p_secure true; p_sameSite Strict;
              p_path (js "/p"); p_partitioned true; p_maxAge (int 3600);
              p_expiry (Date.mk (Some 0)); p_domain (js "d")]))
  = Ok (serialize_spec (js "k") (js "v")
          (Some (object_literal
                   [p_httpOnly true; p_secure true; p_sameSite Strict;
                    p_path (js "/p"); p_partitioned true;
                    p_maxAge (int 3600); p_expiry (Date.mk (Some 0));
                    p_domain (js "d")]))) /\
  serialize_spec (js "k") (js "v")
    (Some (object_literal
             [p_httpOnly true; p_secure true; p_sameSite Strict;
              p_path (js "/p"); p_partitioned true; p_maxAge (int 3600);
              p_expiry (Date.mk (Some 0)); p_domain (js "d")]))
  = js ("k=v; Domain=d; Expires=Thu, 01 Jan 1970 00:00:00 GMT; "
        ++ "Max-Age=3600; Partitioned; Path=/p; SameSite=Strict; "
        ++ "Secure; HttpOnly").
Proof. repeat split; reflexivity. Qed.

(** The example of the specification, evaluated. *)
Example serialize_domain_path_sameSite :
  _server (js "k") (js "v")
          (Some (object_literal
                   [p_sameSite Lax; p_path (js "/p"); p_domain (js "d")]))
  = Ok (js "k=v; Domain=d; Path=/p; SameSite=Lax").
Proof. reflexivity. Qed.

(** C1.  The code at [{maxAge: 0}]: [if (maxAge)] takes the zero for an
    absent field, so the output is the one without options and holds no
    ["; Max-Age=0"], on the server and on the client path; and the string
    [_delete] assigns, built from its own [maxAge: 0], carries no Max-Age
    either. *)
Theorem maxAge_zero_is_dropped :
  (forall key value : jsstring,
      _server key value (Some (object_literal [p_maxAge (int 0)]))
      = _server key value None) /\
  _server (js "k") (js "v") (Some (object_literal [p_maxAge (int 0)]))
  = Ok (js "k=v") /\
  includes (js "k=v") (js "; Max-Age=0") = false /\
  _set (js "k") (js "v") (Some (object_literal [p_maxAge (int 0)]))
       (declared (Some (recorder (js "") [])))
  = Ok (false, declared (Some (recorder (js "") [js "k=v"]))) /\
  _delete (js "k") (declared (Some (recorder (js "k=1") [])))
  = Ok (true, declared (Some (recorder (js "k=1") [js "k=; Path=/"]))).
Proof.
  split; [|repeat split; reflexivity].
  intros key value. rewrite !_server_cookie_string.
  destruct (encodeURIComponent value); reflexivity.
Qed.

(** A positive Max-Age is emitted, for comparison. *)
Example maxAge_positive_is_emitted :
  _server (js "k") (js "v") (Some (object_literal [p_maxAge (int 3600)]))
  = Ok (js "k=v; Max-Age=3600").
Proof. reflexivity. Qed.

(** ** Occurrences of a pattern across a separator *)

(** A pattern without the code unit [c] cannot straddle an occurrence of
    [c]: it occurs in [a ++ c :: b] only inside [a] or inside [b]. *)
Lemma startsWith_across (c : code_unit) (p a b : jsstring) :
  ~ In c p -> startsWith (a ++ c :: b) p = startsWith a p.
Proof.
  revert a; induction p as [|d p IH]; intros a Hc; [reflexivity|].
  destruct a as [|x a]; simpl.
  - destruct (Z.eqb_spec c d) as [->|]; [|reflexivity].
    elim Hc. now left.
  - rewrite IH; [reflexivity|]. intros Hin. apply Hc. now right.
Qed.

Lemma includes_across (c : code_unit) (p a b : jsstring) :
  ~ In c p -> p <> [] ->
  includes (a ++ c :: b) p = includes a p || includes b p.
Proof.
  intros Hc Hp. induction a as [|x a IH].
  - pose proof (startsWith_across c p [] b Hc) as E. simpl app in *.
    cbn [includes]. rewrite E.
    destruct p as [|d p]; [now elim Hp|]. reflexivity.
  - pose proof (startsWith_across c p (x :: a) b Hc) as E. simpl app in *.
    cbn [includes]. rewrite IH, E. now rewrite orb_assoc.
Qed.

(** C6, as stated, fails: with [{secure: false}] nothing is appended, but
    the key is copied as it is, so a key that reads "Secure" puts that
    word into the output. *)
Lemma secure_false_counterexample :
  ~ (forall key value s : jsstring,
        _server key value (Some (object_literal [p_secure false])) = Ok s ->
        includes s (js "Secure") = false).
Proof.
  intros C.
  specialize (C (js "Secure") (js "v") (js "Secure=v") eq_refl).
  discriminate C.
Qed.

(** C6, amended.  A flag contributes the bare ["; Name"] when its option
    is [true] and nothing when it is [false] or absent, never a
    ["Name=false"]; with [{secure: false}] the output is exactly
    ["key=encodedValue"], on both paths, so the word "Secure" occurs in
    it only when the key or the encoded value contains it. *)
Theorem flags_bare_or_omitted (key value encoded : jsstring) :
  encodeURIComponent value = Ok encoded ->
  (forall o : CookieOptions,
      _server key value (Some o) =
      Ok (key ++ js "=" ++ encoded
          ++ attribute_text o Domain ++ attribute_text o Expires
          ++ attribute_text o Max_Age
          ++ bare_flag (js "; Partitioned") (partitioned o)
          ++ attribute_text o Path ++ attribute_text o SameSite_
          ++ bare_flag (js "; Secure") (secure o)
          ++ bare_flag (js "; HttpOnly") (httpOnly o))) /\
  _server key value (Some (object_literal [p_secure false]))
  = Ok (key ++ js "=" ++ encoded) /\
  (forall (J : Type) (jar : CookieJar J) (d : J),
      exists ok,
        _set key value (Some (object_literal [p_secure false])) (declared (Some d))
        = Ok (ok, declared (Some (set_cookie (key ++ js "=" ++ encoded) d)))) /\
  (includes key (js "Secure") = false ->
   includes encoded (js "Secure") = false ->
   includes (key ++ js "=" ++ encoded) (js "Secure") = false).
Proof.
  intros He. split; [|split; [|split]].
  - intros o. rewrite _server_cookie_string, He. simpl bind.
    unfold cookie_string, attributes, attribute_order. cbn [flat_map].
    rewrite app_nil_r.
    replace (attribute_text o Partitioned)
      with (bare_flag (js "; Partitioned") (partitioned o))
      by (unfold attribute_text, emitted; now destruct (partitioned o) as [[]|]).
    replace (attribute_text o Secure)
      with (bare_flag (js "; Secure") (secure o))
      by (unfold attribute_text, emitted; now destruct (secure o) as [[]|]).
    replace (attribute_text o HttpOnly)
      with (bare_flag (js "; HttpOnly") (httpOnly o))
      by (unfold attribute_text, emitted; now destruct (httpOnly o) as [[]|]).
    reflexivity.
  - rewrite _server_cookie_string, He. unfold cookie_string. simpl.
    now rewrite app_nil_r.
  - intros J jar d. rewrite _set_cookie_string, He.
    unfold cookie_string. simpl. rewrite app_nil_r. eauto.
  - intros Hk Hv. rewrite js_equals. cbn [app].
    rewrite includes_across, Hk, Hv; [reflexivity| |discriminate].
    cbv. intuition discriminate.
Qed.

Lemma flags_bare_or_omitted_witness :
  _server (js "k") (js "v") (Some (object_literal [p_secure false]))
  = Ok (js "k" ++ js "=" ++ js "v") /\
  includes (js "k" ++ js "=" ++ js "v") (js "Secure") = false.
Proof.
  destruct (flags_bare_or_omitted (js "k") (js "v") (js "v") eq_refl)
    as (_ & E & _ & I).
  split; [exact E | apply I; reflexivity].
Defined.

(** The flags set to [true], evaluated. *)
Example serialize_flags :
  _server (js "k") (js "v")
          (Some (object_literal
                   [p_httpOnly true; p_secure true; p_partitioned true]))
  = Ok (js "k=v; Partitioned; Secure; HttpOnly").
Proof. reflexivity. Qed.

(** ** Traversals *)

Lemma some_never_stops {A S : Type} (cb : A -> S -> bool * S) (l : list A) :
  (forall a s, fst (cb a s) = false) ->
  forall s, some cb l s = (false, fold_left (fun s a => snd (cb a s)) l s).
Proof.
  intros Hcb. induction l as [|a l IH]; intros s; simpl; [reflexivity|].
  specialize (Hcb a s). destruct (cb a s) as [b s']. simpl in *. subst b.
  apply IH.
Qed.

Lemma for_each_push {A B : Type} (f : A -> result B) (l : list A) :
  forall acc,
    for_each (fun a acc => b <- f a ;; Ok (push acc b)) l acc
    = (bs <- mapM f l ;; Ok (acc ++ bs)).
Proof.
  induction l as [|a l IH]; intros acc; simpl.
  - now rewrite app_nil_r.
  - destruct (f a) as [b|e]; simpl; [|reflexivity].
    rewrite IH. destruct (mapM f l) as [bs|e]; simpl; [|reflexivity].
    unfold push. now rewrite <- app_assoc.
Qed.

Lemma mapM_Ok {A B : Type} (f : A -> result B) (g : A -> B) (l : list A) :
  (forall a, In a l -> f a = Ok (g a)) -> mapM f l = Ok (List.map g l).
Proof.
  induction l as [|a l IH]; intros Hf; simpl; [reflexivity|].
  rewrite (Hf a) by now left. simpl.
  rewrite IH; [reflexivity|]. intros x Hx. apply Hf. now right.
Qed.

Lemma mapM_Throw {A B : Type} (f : A -> result B) (e : error) (l : list A) :
  (forall a e', In a l -> f a = Throw e' -> e' = e) ->
  (exists a, In a l /\ f a = Throw e) ->
  mapM f l = Throw e.
Proof.
  induction l as [|a l IH]; intros Hu (x & Hx & Ex); [now elim Hx|].
  simpl. destruct (f a) as [b|e'] eqn:Ea.
  - simpl. rewrite IH; [reflexivity| |].
    + intros y e'' Hy. apply Hu. now right.
    + destruct Hx as [->|Hx]; [congruence|]. eauto.
  - simpl. f_equal. apply (Hu a); [now left | exact Ea].
Qed.

(** ** [split] *)

Lemma split_not_nil (sep : code_unit) (s : jsstring) : split sep s <> [].
Proof.
  induction s as [|c s IH]; simpl; [discriminate|].
  destruct (c =? sep); [discriminate|].
  destruct (split sep s); discriminate.
Qed.

Lemma split_without_separator (sep : code_unit) (s : jsstring) :
  ~ In sep s -> split sep s = [s].
Proof.
  induction s as [|c s IH]; intros Hn; simpl; [reflexivity|].
  destruct (Z.eqb_spec c sep) as [->|_]; [elim Hn; now left|].
  rewrite IH; [reflexivity|]. intros Hin. apply Hn. now right.
Qed.

Lemma split_with_separator (sep : code_unit) (s : jsstring) :
  In sep s -> exists a b rest, split sep s = a :: b :: rest.
Proof.
  induction s as [|c s IH]; intros Hin; [now elim Hin|]. simpl.
  destruct (Z.eqb_spec c sep) as [->|Hc].
  - destruct (split sep s) as [|b rest] eqn:E; [now elim (split_not_nil sep s)|].
    eauto.
  - destruct Hin as [->|Hin]; [now elim Hc|].
    destruct (IH Hin) as (a & b & rest & ->). eauto.
Qed.

Lemma key_of_segment (segment : jsstring) :
  exists key, trim_of (index (split equals_sign segment) 0) = Ok key /\
              (~ In equals_sign segment -> key = trim segment).
Proof.
  destruct (split equals_sign segment) as [|a rest] eqn:E;
    [now elim (split_not_nil equals_sign segment)|].
  exists (trim a). split; [reflexivity|].
  intros Hn. rewrite (split_without_separator _ _ Hn) in E. congruence.
Qed.

Lemma value_of_segment (segment : jsstring) :
  (In equals_sign segment ->
   exists v, trim_of (index (split equals_sign segment) 1) = Ok v) /\
  (~ In equals_sign segment ->
   trim_of (index (split equals_sign segment) 1) = Throw TypeError).
Proof.
  split; intros Hs.
  - destruct (split_with_separator _ _ Hs) as (a & b & rest & ->).
    now exists (trim b).
  - now rewrite (split_without_separator _ _ Hs).
Qed.

(** ** Claims about the web helpers *)

Lemma fold_left_pointwise {A S : Type} (f g : S -> A -> S) (l : list A) :
  (forall s a, f s a = g s a) ->
  forall s, fold_left f l s = fold_left g l s.
Proof.
  intros E. induction l as [|a l IH]; intros s; simpl; [reflexivity|].
  now rewrite E, IH.
Qed.

Section WebClaims.

Context {J : Type} `{CookieJar J}.

(** [_get] visits every segment: the callback handed to [some] returns
    nothing, so the traversal never stops and the last matching segment
    decides. *)
Lemma _get_fold (key : jsstring) (d : J) :
  _get key (declared (Some d))
  = Ok (fold_left (select key) (split semicolon (cookie d)) None).
Proof.
  unfold _get. cbn [evaluate bind]. rewrite some_never_stops.
  - f_equal. apply fold_left_pointwise. intros rv seg. unfold select.
    now destruct (startsWith _ _).
  - intros seg rv. now destruct (startsWith _ _).
Qed.

Lemma _delete_absent (key : jsstring) (document : global J)
    (found : option jsstring) :
  _get key document = Ok found -> truthy_string_or_null found = false ->
  _delete key document = Ok (false, document).
Proof. intros G E. unfold _delete. rewrite G. cbn [bind]. now rewrite E. Qed.

Lemma _delete_present (key : jsstring) (document : global J)
    (found : option jsstring) :
  _get key document = Ok found -> truthy_string_or_null found = true ->
  _delete key document
  = _set key (js "")
         (Some (object_literal
                  [p_maxAge (int 0); p_secure false; p_path (js "/")]))
         document.
Proof. intros G E. unfold _delete. rewrite G. cbn [bind]. now rewrite E. Qed.

Lemma _update_absent (key value : jsstring) (options : option CookieOptions)
    (document : global J) (found : option jsstring) :
  _get key document = Ok found -> truthy_string_or_null found = false ->
  _update key value options document = Ok (false, document).
Proof. intros G E. unfold _update. rewrite G. cbn [bind]. now rewrite E. Qed.

Lemma _update_present (key value : jsstring) (options : option CookieOptions)
    (document : global J) (found : option jsstring) :
  _get key document = Ok found -> truthy_string_or_null found = true ->
  _update key value options document = _set key value options document.
Proof. intros G E. unfold _update. rewrite G. cbn [bind]. now rewrite E. Qed.

(** Where [document] is not declared, every helper that reaches its test
    of [document] raises a ReferenceError. *)
Lemma helpers_undeclared (key : jsstring) :
  _get key (undeclared (J:=J)) = Throw ReferenceError /\
  _delete key (undeclared (J:=J)) = Throw ReferenceError /\
  (forall value options,
      _update key value options (undeclared (J:=J)) = Throw ReferenceError) /\
  _keys (undeclared (J:=J)) = Throw ReferenceError /\
  _values (undeclared (J:=J)) = Throw ReferenceError.
Proof. repeat split. Qed.

Lemma _keys_mapM (d : J) :
  cookie d <> [] ->
  _keys (declared (Some d))
  = (ks <- mapM (fun seg => trim_of (index (split equals_sign seg) 0))
                (split semicolon (cookie d)) ;;
     Ok (if Nat.eqb (List.length ks) 0 then None else Some ks)).
Proof.
  intros Hne. unfold _keys. cbn [evaluate bind].
  destruct (cookie d) as [|c s] eqn:E; [now elim Hne|].
  cbn [List.length Nat.eqb]. rewrite for_each_push.
  now destruct (mapM _ _).
Qed.

Lemma _values_mapM (d : J) :
  cookie d <> [] ->
  _values (declared (Some d))
  = (vs <- mapM (fun seg => trim_of (index (split equals_sign seg) 1))
                (split semicolon (cookie d)) ;;
     Ok (if Nat.eqb (List.length vs) 0 then None else Some vs)).
Proof.
  intros Hne. unfold _values. cbn [evaluate bind].
  destruct (cookie d) as [|c s] eqn:E; [now elim Hne|].
  cbn [List.length Nat.eqb]. rewrite for_each_push.
  now destruct (mapM _ _).
Qed.

(** C7.  [keys()] and [values()] answer [null] for an empty snapshot (and
    for a [document] that is declared but falsy), and a sequence they
    return is never empty: an empty extracted list is turned into
    [null]. *)
Theorem keys_values_null_never_empty (document : option J) :
  (forall d, document = Some d -> cookie d = [] ->
             _keys (declared document) = Ok None /\
             _values (declared document) = Ok None) /\
  (document = None ->
   _keys (declared document) = Ok None /\
   _values (declared document) = Ok None) /\
  (forall ks, _keys (declared document) = Ok (Some ks) -> ks <> []) /\
  (forall vs, _values (declared document) = Ok (Some vs) -> vs <> []).
Proof.
  split; [|split; [|split]].
  - intros d -> E. unfold _keys, _values. cbn [evaluate bind]. now rewrite E.
  - now intros ->.
  - intros ks E. destruct document as [d|]; [|discriminate].
    unfold _keys in E. cbn [evaluate bind] in E.
    destruct (Nat.eqb (List.length (cookie d)) 0); [discriminate|].
    apply bind_Ok_inv in E as (l & _ & E).
    destruct l; simpl in E; [discriminate|].
    injection E as <-. discriminate.
  - intros vs E. destruct document as [d|]; [|discriminate].
    unfold _values in E. cbn [evaluate bind] in E.
    destruct (Nat.eqb (List.length (cookie d)) 0);
      [discriminate|].
    apply bind_Ok_inv in E as (l & _ & E).
    destruct l; simpl in E; [discriminate|].
    injection E as <-. discriminate.
Qed.

End WebClaims.

Lemma keys_values_null_never_empty_witness :
  (_keys (declared (Some (recorder (js "") []))) = Ok None /\
   _values (declared (Some (recorder (js "") []))) = Ok None) /\
  [js "a"; js "b"] <> [].
Proof.
  split.
  - apply (proj1 (keys_values_null_never_empty (Some (recorder (js "") [])))
                 (recorder (js "") [])); reflexivity.
  - apply (proj1 (proj2 (proj2
             (keys_values_null_never_empty
                (Some (recorder (js "a=1; b=2") [])))))).
    reflexivity.
Defined.

Section SegmentsWithoutEquals.

Context {J : Type} `{CookieJar J}.

(** C10.  On a non-empty snapshot [values()] returns exactly when every
    segment contains ["="]; a segment without it makes [values()] raise a
    TypeError (the [trim] of the missing right-hand part), while [keys()]
    returns one key per segment, the whole trimmed segment for a segment
    without ["="]. *)
Theorem values_partial_keys_total (d : J) :
  cookie d <> [] ->
  ((exists r, _values (declared (Some d)) = Ok r) <->
   (forall seg, In seg (split semicolon (cookie d)) -> In equals_sign seg)) /\
  ((exists seg, In seg (split semicolon (cookie d)) /\ ~ In equals_sign seg) ->
   _values (declared (Some d)) = Throw TypeError /\
   exists ks,
     _keys (declared (Some d)) = Ok (Some ks) /\
     List.length ks = List.length (split semicolon (cookie d)) /\
     forall i seg,
       nth_error (split semicolon (cookie d)) i = Some seg ->
       ~ In equals_sign seg -> nth_error ks i = Some (trim seg)).
Proof.
  intros Hne.
  assert (Hthrow :
            (exists seg, In seg (split semicolon (cookie d))
                         /\ ~ In equals_sign seg) ->
            _values (declared (Some d)) = Throw TypeError).
  { intros (seg & Hin & Hno). rewrite _values_mapM by exact Hne.
    rewrite (mapM_Throw _ TypeError); [reflexivity| |].
    - intros a e' _ Ea.
      destruct (in_dec Z.eq_dec equals_sign a) as [Hy|Hn].
      + destruct (proj1 (value_of_segment a) Hy) as (v & Ev). congruence.
      + rewrite (proj2 (value_of_segment a) Hn) in Ea. congruence.
    - exists seg. split; [exact Hin|]. now apply value_of_segment. }
  split; [split|].
  - intros (r & Er) seg Hin.
    destruct (in_dec Z.eq_dec equals_sign seg) as [Hy|Hn]; [exact Hy|].
    rewrite Hthrow in Er by eauto. discriminate.
  - intros Hall. rewrite _values_mapM by exact Hne.
    set (g := fun seg => trim (nth 1 (split equals_sign seg) [])).
    rewrite (mapM_Ok _ g); [simpl; eauto|].
    intros a Ha. unfold g.
    destruct (split_with_separator _ _ (Hall a Ha)) as (x & y & rest & ->).
    reflexivity.
  - intros Hex. split; [now apply Hthrow|].
    set (g := fun seg => trim (nth 0 (split equals_sign seg) [])).
    assert (Hk : mapM (fun seg => trim_of (index (split equals_sign seg) 0))
                      (split semicolon (cookie d))
                 = Ok (List.map g (split semicolon (cookie d)))).
    { apply mapM_Ok. intros a _. unfold g.
      destruct (split equals_sign a) eqn:E;
        [now elim (split_not_nil equals_sign a)|reflexivity]. }
    exists (List.map g (split semicolon (cookie d))).
    rewrite _keys_mapM, Hk by exact Hne. simpl.
    destruct (split semicolon (cookie d)) as [|s0 segs] eqn:Es;
      [now elim (split_not_nil semicolon (cookie d))|].
    split; [reflexivity|]. split; [now rewrite length_map|].
    intros i seg Hi Hno. rewrite nth_error_map, Hi. simpl. f_equal.
    unfold g. now rewrite (split_without_separator _ _ Hno).
Qed.

End SegmentsWithoutEquals.

Lemma values_partial_keys_total_witness :
  _values (declared (Some (recorder (js "a=1; b") []))) = Throw TypeError /\
  exists ks,
    _keys (declared (Some (recorder (js "a=1; b") []))) = Ok (Some ks) /\
    List.length ks = List.length (split semicolon (js "a=1; b")) /\
    forall i seg,
      nth_error (split semicolon (js "a=1; b")) i = Some seg ->
      ~ In equals_sign seg -> nth_error ks i = Some (trim seg).
Proof.
  assert (Hne : cookie (recorder (js "a=1; b") []) <> []) by discriminate.
  apply (proj2 (values_partial_keys_total (recorder (js "a=1; b") []) Hne)).
  exists (js " b"). split.
  - right. left. reflexivity.
  - cbv. intuition discriminate.
Defined.

(** The two helpers on a segment without ["="], evaluated. *)
Example keys_and_values_without_equals :
  _keys (declared (Some (recorder (js "a=1; b") [])))
  = Ok (Some [js "a"; js "b"]) /\
  _values (declared (Some (recorder (js "a=1; b") []))) = Throw TypeError /\
  _values (declared (Some (recorder (js "a=1; b=2") [])))
  = Ok (Some [js "1"; js "2"]).
Proof. repeat split; reflexivity. Qed.

Lemma replace_whole (p r : jsstring) : replace p p r = r.
Proof.
  assert (E : startsWith p p = true)
    by (rewrite <- (app_nil_r p) at 1; apply startsWith_app).
  destruct p as [|c p]; simpl; [now rewrite app_nil_r|].
  simpl in E. rewrite E.
  rewrite <- (app_nil_r p) at 2. now rewrite skipn_app_exact, app_nil_r.
Qed.

Lemma fold_select_no_match (key : jsstring) (l : list jsstring)
    (rv : option jsstring) :
  Forall (fun seg => startsWith (trim seg) (key ++ js "=") = false) l ->
  fold_left (select key) l rv = rv.
Proof.
  intros HF; revert rv; induction HF as [|seg l Hs _ IH]; intros rv;
    simpl; [reflexivity|].
  rewrite IH. unfold select. now rewrite Hs.
Qed.

Lemma fold_select_None (key : jsstring) (l : list jsstring)
    (rv : option jsstring) :
  fold_left (select key) l rv = None <->
  rv = None /\
  Forall (fun seg => startsWith (trim seg) (key ++ js "=") = false) l.
Proof.
  revert rv; induction l as [|seg l IH]; intros rv; simpl.
  - split; [intros ->; now split | now intros [-> _]].
  - rewrite IH. unfold select.
    destruct (startsWith (trim seg) (key ++ js "=")) eqn:E; split.
    + now intros [? _].
    + intros [_ HF]. inversion HF; congruence.
    + intros [-> HF]. split; [reflexivity|]. now constructor.
    + intros [-> HF]. split; [reflexivity|]. now inversion HF.
Qed.

Section ExistenceTests.

Context {J : Type} `{CookieJar J}.

(** [_get] and the specification's [get] answer [null] on the same jars:
    exactly when no trimmed segment starts with [key=]. *)
Lemma _get_null_iff (key : jsstring) (d : J) :
  _get key (declared (Some d)) = Ok None <-> get_spec key (Some (cookie d)) = None.
Proof.
  rewrite _get_fold, Ok_eq_iff, fold_select_None. unfold get_spec.
  generalize (split semicolon (cookie d)) as l. intros l.
  induction l as [|seg l IH]; simpl.
  - split; [reflexivity | now split].
  - destruct (startsWith (trim seg) (key ++ js "=")) eqn:E.
    + split; [|discriminate]. intros [_ HF]. inversion HF; congruence.
    + rewrite <- IH. split; intros [_ HF]; (split; [reflexivity|]).
      * now inversion HF.
      * now constructor.
Qed.

(** Whenever [get(k)] returns the empty string, [delete(k)] and
    [update(k, v, o)] return [false] and leave the document as it was:
    both test the truthiness of that result.  [get(k)] returns the empty
    string when the segment it selects is exactly [k=]. *)
Lemma empty_result_blocks_delete_and_update (key : jsstring)
    (document : option J) :
  (_get key (declared document) = Ok (Some (js "")) ->
   forall value options,
     _delete key (declared document) = Ok (false, declared document) /\
     _update key value options (declared document)
     = Ok (false, declared document)) /\
  (forall d pre post,
      document = Some d ->
      split semicolon (cookie d) = pre ++ (key ++ js "=") :: post ->
      startsWith (trim (key ++ js "=")) (key ++ js "=") = true ->
      Forall (fun seg => startsWith (trim seg) (key ++ js "=") = false) post ->
      _get key (declared document) = Ok (Some (js ""))).
Proof.
  split.
  - intros G value options. split.
    + now apply (_delete_absent key _ _ G).
    + now apply (_update_absent key value options _ _ G).
  - intros d pre post -> Es Hk Hpost.
    rewrite _get_fold, Es, fold_left_app. cbn [fold_left].
    rewrite fold_select_no_match by exact Hpost.
    unfold select at 1. now rewrite Hk, replace_whole.
Qed.

End ExistenceTests.

(** C9.  The code at a key stored with the empty value after another
    cookie, the jar ["a=1; k="]: the specification's [get] gives the
    empty string, but [_get] replaces in the untrimmed segment [" k="]
    and hands back the space; that result is truthy, so [delete] goes on
    to assign ["k=; Path=/"] and [update] to assign the new pair.  On the
    jar ["k="], where no space leads the segment, [get] returns the empty
    string and both return [false] without assigning. *)
Theorem empty_value_after_another_cookie :
  stored_empty (js "k") (js "a=1; k=") /\
  get_spec (js "k") (Some (js "a=1; k=")) = Some (js "") /\
  _get (js "k") (declared (Some (recorder (js "a=1; k=") [])))
  = Ok (Some (js " ")) /\
  _delete (js "k") (declared (Some (recorder (js "a=1; k=") [])))
  = Ok (true, declared (Some (recorder (js "a=1; k=") [js "k=; Path=/"]))) /\
  _update (js "k") (js "v") None
          (declared (Some (recorder (js "a=1; k=") [])))
  = Ok (false, declared (Some (recorder (js "a=1; k=") [js "k=v"]))) /\
  _get (js "k") (declared (Some (recorder (js "k=") [])))
  = Ok (Some (js "")) /\
  _delete (js "k") (declared (Some (recorder (js "k=") [])))
  = Ok (false, declared (Some (recorder (js "k=") []))) /\
  _update (js "k") (js "v") None (declared (Some (recorder (js "k=") [])))
  = Ok (false, declared (Some (recorder (js "k=") []))).
Proof.
  split; [|repeat split; reflexivity].
  exists (js " k="). split; [right; left; reflexivity | reflexivity].
Qed.

(** C4.  The code at a cookie stored with the empty value: [get] finds
    it (its result is the empty string, not [null]), yet [delete] returns
    [false] and assigns nothing, where the call to [set] with the
    hard-coded options would have assigned ["k=; Path=/"]. *)
Theorem delete_skips_cookie_with_empty_value :
  _get (js "k") (declared (Some (recorder (js "k=") []))) = Ok (Some (js "")) /\
  _delete (js "k") (declared (Some (recorder (js "k=") [])))
  = Ok (false, declared (Some (recorder (js "k=") []))) /\
  _set (js "k") (js "")
       (Some (object_literal [p_maxAge (int 0); p_secure false; p_path (js "/")]))
       (declared (Some (recorder (js "k=") [])))
  = Ok (true, declared (Some (recorder (js "k=") [js "k=; Path=/"]))).
Proof. repeat split; reflexivity. Qed.

(** C2.  The code against the specification's [get]: the value of a key
    that is not the first cookie comes back with the space that follows
    the [";"], and of two segments for one key the last one decides; the
    two agree on a first segment and on [null]. *)
Theorem get_untrimmed_last_match :
  _get (js "b") (declared (Some (recorder (js "a=1; b=2") [])))
  = Ok (Some (js " 2")) /\
  get_spec (js "b") (Some (js "a=1; b=2")) = Some (js "2") /\
  _get (js "a") (declared (Some (recorder (js "a=1;a=2") [])))
  = Ok (Some (js "2")) /\
  get_spec (js "a") (Some (js "a=1;a=2")) = Some (js "1") /\
  _get (js "a") (declared (Some (recorder (js "a=1; b=2") [])))
  = Ok (Some (js "1")) /\
  get_spec (js "a") (Some (js "a=1; b=2")) = Some (js "1") /\
  _get (js "missing") (declared (Some (recorder (js "") []))) = Ok None /\
  get_spec (js "missing") (Some (js "")) = None.
Proof. repeat split; reflexivity. Qed.

(** ** End to end on the in-memory host *)

Example set_then_get :
  _set (js "a") (js "1") None (declared (Some (MemoryJar.of_line (js ""))))
  = Ok (true, declared (Some (MemoryJar.of_line (js "a=1")))) /\
  _get (js "a") (declared (Some (MemoryJar.of_line (js "a=1"))))
  = Ok (Some (js "1")).
Proof. split; reflexivity. Qed.

Example update_needs_the_key :
  _update (js "a") (js "2") None (declared (Some (MemoryJar.of_line (js ""))))
  = Ok (false, declared (Some (MemoryJar.of_line (js "")))) /\
  _update (js "a") (js "2") None (declared (Some (MemoryJar.of_line (js "a=1"))))
  = Ok (true, declared (Some (MemoryJar.of_line (js "a=2")))) /\
  _get (js "a") (declared (Some (MemoryJar.of_line (js "a=2"))))
  = Ok (Some (js "2")).
Proof. repeat split; reflexivity. Qed.

Example delete_missing :
  _delete (js "missing") (declared (Some (MemoryJar.of_line (js ""))))
  = Ok (false, declared (Some (MemoryJar.of_line (js "")))).
Proof. reflexivity. Qed.

(** With Max-Age dropped from the string [_delete] assigns, the host keeps
    the cookie, now with the empty value; an assignment that does carry
    [Max-Age=0] removes it. *)
Example delete_leaves_the_cookie :
  _delete (js "a") (declared (Some (MemoryJar.of_line (js "a=1"))))
  = Ok (true, declared (Some (MemoryJar.of_line (js "a=")))) /\
  MemoryJar.write (js "a=; Max-Age=0; Path=/") (MemoryJar.of_line (js "a=1"))
  = MemoryJar.of_line (js "").
Proof. split; reflexivity. Qed.

(** ** What [encodeURIComponent] accepts and what it produces *)

Lemma uri_safe_range (c : code_unit) : uri_safe c = true -> 33 <= c <= 126.
Proof.
  unfold uri_safe, uriUnescaped. intros E.
  destruct (Z.lt_ge_cases c 33) as [Hl|Hl];
    [|destruct (Z.lt_ge_cases 126 c) as [Hh|Hh]; [|lia]];
    exfalso; revert E; range_ltb;
    repeat match goal with
           | |- context [c =? ?k] =>
               replace (c =? k) with false by (symmetry; apply Z.eqb_neq; lia)
           end;
    discriminate.
Qed.

Lemma uri_safe_not_white (c : code_unit) :
  uri_safe c = true -> isWhiteSpace c = false.
Proof.
  intros E. apply uri_safe_range in E. unfold isWhiteSpace. range_ltb.
  repeat match goal with
         | |- context [c =? ?k] =>
             replace (c =? k) with false by (symmetry; apply Z.eqb_neq; lia)
         end.
  reflexivity.
Qed.

Lemma uri_safe_not_separator (c : code_unit) :
  uri_safe c = true -> c <> semicolon /\ c <> equals_sign.
Proof. intros E. split; intros ->; discriminate E. Qed.

Lemma hex_digit_safe (n : Z) : 0 <= n < 16 -> uri_safe (hex_digit n) = true.
Proof.
  intros Hn. unfold uri_safe, uriUnescaped, hex_digit.
  destruct (Z.ltb_spec n 10).
  - replace ((48 <=? 48 + n) && (48 + n <=? 57)) with true
      by (symmetry; apply andb_true_iff; split; apply Z.leb_le; lia).
    now rewrite !orb_true_r.
  - replace ((65 <=? 55 + n) && (55 + n <=? 90)) with true
      by (symmetry; apply andb_true_iff; split; apply Z.leb_le; lia).
    reflexivity.
Qed.

Lemma escape_octet_safe (b : Z) :
  0 <= b < 256 -> forallb uri_safe (escape_octet b) = true.
Proof.
  intros Hb. unfold escape_octet. cbn [forallb].
  rewrite !hex_digit_safe by (Z.div_mod_to_equations; lia). reflexivity.
Qed.

Lemma escape_octets_safe (cp : Z) :
  0 <= cp <= 1114111 ->
  forallb uri_safe (escape_octets (utf8_octets cp)) = true.
Proof.
  intros Hcp. unfold escape_octets, utf8_octets.
  destruct (cp <? 128) eqn:E1; [|destruct (cp <? 2048) eqn:E2;
    [|destruct (cp <? 65536) eqn:E3]];
    rewrite ?Z.ltb_lt, ?Z.ltb_ge in *; cbn [flat_map];
    rewrite ?forallb_app, ?escape_octet_safe
      by (Z.div_mod_to_equations; lia); reflexivity.
Qed.

Lemma encode_safe_bounded (n : nat) (v e : jsstring) :
  (List.length v <= n)%nat -> well_formed v = true ->
  encodeURIComponent v = Ok e -> forallb uri_safe e = true.
Proof.
  revert v e. induction n as [|n IH]; intros [|c rest] e Hlen Hwf He;
    simpl in Hlen; try lia; try (injection He as <-; reflexivity).
  cbn [well_formed] in Hwf. apply andb_true_iff in Hwf as [Hcu Hwf].
  apply is_code_unit_range in Hcu.
  cbn [encodeURIComponent] in He.
  destruct (uriUnescaped c) eqn:Hu.
  - assert (Hs : uri_safe c = true) by (unfold uri_safe; now rewrite Hu).
    assert (Hl : isLeadingSurrogate c = false).
    { apply uri_safe_range in Hs. unfold isLeadingSurrogate. now range_ltb. }
    rewrite Hl in Hwf. apply andb_true_iff in Hwf as [_ Hwf].
    apply bind_Ok_inv in He as (r & Hr & He). injection He as <-.
    cbn [forallb]. rewrite Hs. apply (IH rest); [lia|exact Hwf|exact Hr].
  - destruct (isLeadingSurrogate c) eqn:Hl.
    + destruct rest as [|d rest']; [discriminate|].
      apply andb_true_iff in Hwf as [Hd Hwf]. rewrite Hd in He.
      apply bind_Ok_inv in He as (r & Hr & He). injection He as <-.
      rewrite forallb_app, escape_octets_safe.
      * apply (IH rest'); [simpl in Hlen; lia|exact Hwf|exact Hr].
      * apply isLeadingSurrogate_range in Hl.
        apply isTrailingSurrogate_range in Hd.
        unfold UTF16SurrogatePairToCodePoint. lia.
    + apply andb_true_iff in Hwf as [Ht Hwf].
      apply negb_true_iff in Ht. rewrite Ht in He.
      apply bind_Ok_inv in He as (r & Hr & He). injection He as <-.
      rewrite forallb_app, escape_octets_safe by lia.
      apply (IH rest); [lia|exact Hwf|exact Hr].
Qed.

Lemma encode_safe (v e : jsstring) :
  well_formed v = true -> encodeURIComponent v = Ok e ->
  forallb uri_safe e = true.
Proof. apply (encode_safe_bounded (List.length v)). lia. Qed.

Lemma encode_throws_bounded (n : nat) (v : jsstring) :
  (List.length v <= n)%nat -> forallb is_code_unit v = true ->
  well_formed v = false -> encodeURIComponent v = Throw URIError.
Proof.
  revert v. induction n as [|n IH]; intros [|c rest] Hlen Hcu Hwf;
    simpl in Hlen; try lia; try discriminate.
  cbn [forallb] in Hcu. apply andb_true_iff in Hcu as [Hc Hrest].
  cbn [well_formed] in Hwf. rewrite Hc in Hwf. cbn [andb] in Hwf.
  cbn [encodeURIComponent].
  destruct (uriUnescaped c) eqn:Hu.
  - assert (Hs : uri_safe c = true) by (unfold uri_safe; now rewrite Hu).
    apply uri_safe_range in Hs.
    assert (Hl : isLeadingSurrogate c = false)
      by (unfold isLeadingSurrogate; now range_ltb).
    assert (Ht : isTrailingSurrogate c = false)
      by (unfold isTrailingSurrogate; now range_ltb).
    rewrite Hl, Ht in Hwf. cbn [negb andb] in Hwf.
    now rewrite (IH rest) by (lia || assumption).
  - destruct (isLeadingSurrogate c) eqn:Hl.
    + destruct rest as [|d rest']; [reflexivity|].
      destruct (isTrailingSurrogate d); [|reflexivity].
      cbn [andb] in Hwf. cbn [forallb] in Hrest.
      apply andb_true_iff in Hrest as [_ Hrest'].
      now rewrite (IH rest') by (simpl in Hlen; lia || assumption).
    + destruct (isTrailingSurrogate c); [reflexivity|].
      cbn [negb andb] in Hwf.
      now rewrite (IH rest) by (lia || assumption).
Qed.

Lemma encode_throws (v : jsstring) :
  forallb is_code_unit v = true -> well_formed v = false ->
  encodeURIComponent v = Throw URIError.
Proof. apply (encode_throws_bounded (List.length v)). lia. Qed.

Lemma encode_total (v : jsstring) :
  well_formed v = true -> exists e, encodeURIComponent v = Ok e.
Proof. intros Hwf. destruct (encode_decode v Hwf) as (e & He & _). eauto. Qed.

(** X1.  Serialization fails exactly on a value with an unpaired
    surrogate: for a value of 16-bit code units, [_server] returns a
    string when every surrogate is paired and raises a URIError
    otherwise, whatever the key and the options.  [_set] builds its
    string first, so on such a value it raises the URIError in every
    state of [document], declared or not; on a value that encodes it
    raises a ReferenceError where [document] is not declared and returns
    normally where it is. *)
Theorem serialization_fails_on_lone_surrogate (key value : jsstring)
    (options : option CookieOptions) :
  forallb is_code_unit value = true ->
  ((exists s, _server key value options = Ok s) <-> well_formed value = true) /\
  (_server key value options = Throw URIError <-> well_formed value = false) /\
  (forall (J : Type) (jar : CookieJar J) (document : global J),
      (well_formed value = false ->
       _set key value options document = Throw URIError) /\
      (well_formed value = true ->
       match document with
       | undeclared =>
           _set key value options document = Throw ReferenceError
       | declared _ =>
           exists ok after,
             _set key value options document = Ok (ok, declared after)
       end)).
Proof.
  intros Hcu. rewrite _server_cookie_string.
  destruct (well_formed value) eqn:Hwf.
  - destruct (encode_total value Hwf) as (e & He). rewrite He. simpl.
    split; [|split].
    + split; eauto.
    + split; discriminate.
    + intros J jar document. split; [discriminate|]. intros _.
      destruct document as [|v].
      * now rewrite _set_undeclared, He.
      * rewrite _set_cookie_string, He. simpl. destruct v; eauto.
  - rewrite (encode_throws value Hcu Hwf). simpl. split; [|split].
    + split; [intros (s & Es); discriminate | discriminate].
    + split; reflexivity.
    + intros J jar document. split; [|discriminate]. intros _.
      destruct document as [|v].
      * now rewrite _set_undeclared, (encode_throws value Hcu Hwf).
      * now rewrite _set_cookie_string, (encode_throws value Hcu Hwf).
Qed.

Lemma serialization_fails_on_lone_surrogate_witness :
  _server (js "k") [55357] None = Throw URIError /\
  exists s, _server (js "k") [55357; 56832] None = Ok s.
Proof.
  split.
  - apply (proj1 (proj2 (serialization_fails_on_lone_surrogate
                           (js "k") [55357] None eq_refl))).
    reflexivity.
  - apply (proj1 (serialization_fails_on_lone_surrogate
                    (js "k") [55357; 56832] None eq_refl)).
    reflexivity.
Defined.

(** X2.  The encoded value is cookie-safe: after ["key="] the output
    without options holds only unreserved characters and ["%"], so it
    contains no [";"], no ["="] and no white space, and it is empty only
    for the empty value. *)
Theorem encoded_value_is_cookie_safe (key value s : jsstring) :
  well_formed value = true ->
  _server key value None = Ok s ->
  exists encoded,
    s = key ++ js "=" ++ encoded /\
    forallb uri_safe encoded = true /\
    ~ In semicolon encoded /\ ~ In equals_sign encoded /\
    forallb (fun c => negb (isWhiteSpace c)) encoded = true /\
    (encoded = [] <-> value = []).
Proof.
  intros Hwf Es. rewrite _server_cookie_string in Es.
  apply bind_Ok_inv in Es as (e & He & Es). injection Es as <-.
  exists e. pose proof (encode_safe value e Hwf He) as Hs.
  rewrite forallb_forall in Hs.
  split; [unfold cookie_string; simpl; now rewrite app_nil_r|].
  split; [now apply forallb_forall|].
  split; [intros Hin; now elim (proj1 (uri_safe_not_separator _ (Hs _ Hin)))|].
  split; [intros Hin; now elim (proj2 (uri_safe_not_separator _ (Hs _ Hin)))|].
  split.
  - apply forallb_forall. intros c Hc.
    now rewrite (uri_safe_not_white c (Hs c Hc)).
  - split; intros ->.
    + destruct value as [|c rest]; [reflexivity|]. exfalso.
      cbn [encodeURIComponent] in He.
      destruct (uriUnescaped c).
      * apply bind_Ok_inv in He as (r & _ & He). discriminate.
      * destruct (isLeadingSurrogate c).
        -- destruct rest as [|d rest']; [discriminate|].
           destruct (isTrailingSurrogate d); [|discriminate].
           apply bind_Ok_inv in He as (r & _ & He).
           injection He as He. unfold utf8_octets in He.
           repeat destruct (_ <? _); discriminate.
        -- destruct (isTrailingSurrogate c); [discriminate|].
           apply bind_Ok_inv in He as (r & _ & He).
           injection He as He. unfold utf8_octets in He.
           repeat destruct (_ <? _); discriminate.
    + now injection He as <-.
Qed.

Lemma encoded_value_is_cookie_safe_witness :
  exists encoded,
    js "k=a%20b%3B%3D" = js "k" ++ js "=" ++ encoded /\
    forallb uri_safe encoded = true /\
    ~ In semicolon encoded /\ ~ In equals_sign encoded /\
    forallb (fun c => negb (isWhiteSpace c)) encoded = true /\
    (encoded = [] <-> js "a b;=" = []).
Proof.
  apply (encoded_value_is_cookie_safe (js "k") (js "a b;=")
           (js "k=a%20b%3B%3D")); reflexivity.
Defined.

(** ** [trim] and [replace] around a key *)

Lemma trimStart_app_clean (x y : jsstring) (c : code_unit) :
  isWhiteSpace c = false -> trimStart (x ++ c :: y) = trimStart x ++ c :: y.
Proof.
  intros Hc. induction x as [|a x IH]; simpl; [now rewrite Hc|].
  destruct (isWhiteSpace a); [exact IH | reflexivity].
Qed.

Lemma trimStart_white (ws t : jsstring) :
  forallb isWhiteSpace ws = true -> trimStart (ws ++ t) = trimStart t.
Proof.
  induction ws as [|w ws IH]; simpl; [reflexivity|].
  intros E. apply andb_true_iff in E as [Hw Hws]. rewrite Hw. now apply IH.
Qed.

Lemma trimEnd_app_clean (a b : jsstring) (c : code_unit) :
  isWhiteSpace c = false -> trimEnd (a ++ c :: b) = a ++ c :: trimEnd b.
Proof.
  intros Hc. unfold trimEnd.
  rewrite rev_app_distr. cbn [rev]. rewrite <- app_assoc. cbn [app].
  rewrite trimStart_app_clean by exact Hc.
  rewrite rev_app_distr. cbn [rev]. rewrite rev_involutive, <- app_assoc.
  reflexivity.
Qed.

Lemma trimStart_clean_key (key rest : jsstring) :
  starts_clean key = true ->
  trimStart (key ++ equals_sign :: rest) = key ++ equals_sign :: rest.
Proof.
  destruct key as [|c key]; simpl; [reflexivity|].
  intros E. apply negb_true_iff in E. now rewrite E.
Qed.

(** A segment made of white space, the key, ["="] and a remainder is one
    that [_get] selects. *)
Lemma segment_matches (key ws rest : jsstring) :
  forallb isWhiteSpace ws = true -> starts_clean key = true ->
  startsWith (trim (ws ++ key ++ js "=" ++ rest)) (key ++ js "=") = true.
Proof.
  intros Hws Hk. unfold trim. rewrite js_equals. cbn [app].
  rewrite trimStart_white, trimStart_clean_key by assumption.
  rewrite trimEnd_app_clean by reflexivity.
  change (key ++ equals_sign :: trimEnd rest)
    with (key ++ [equals_sign] ++ trimEnd rest).
  rewrite app_assoc. apply startsWith_app.
Qed.

Lemma replace_unfold (s p r : jsstring) :
  replace s p r =
  if startsWith s p then r ++ skipn (List.length p) s
  else match s with
       | [] => []
       | c :: s' => c :: replace s' p r
       end.
Proof. destruct s; reflexivity. Qed.

(** Removing the first occurrence of [key=] from such a segment keeps the
    leading white space and the remainder. *)
Lemma replace_in_segment (key ws rest : jsstring) :
  forallb isWhiteSpace ws = true -> starts_clean key = true ->
  replace (ws ++ key ++ js "=" ++ rest) (key ++ js "=") (js "") = ws ++ rest.
Proof.
  intros Hws Hk. induction ws as [|w ws IH].
  - cbn [app]. rewrite replace_unfold, app_assoc, startsWith_app.
    now rewrite skipn_app_exact.
  - cbn [forallb] in Hws. apply andb_true_iff in Hws as [Hw Hws].
    cbn [app]. rewrite replace_unfold.
    assert (E : startsWith (w :: ws ++ key ++ js "=" ++ rest) (key ++ js "=")
                = false).
    { destruct key as [|c key]; simpl.
      - destruct (Z.eqb_spec w 61) as [->|]; [discriminate|reflexivity].
      - simpl in Hk. apply negb_true_iff in Hk.
        destruct (Z.eqb_spec w c) as [->|]; [congruence|reflexivity]. }
    rewrite E. f_equal. now apply IH.
Qed.

Section GetFacts.

Context {J : Type} `{CookieJar J}.

Lemma _get_last_match (key : jsstring) (d : J)
    (pre post : list jsstring) (ws rest : jsstring) :
  split semicolon (cookie d) = pre ++ (ws ++ key ++ js "=" ++ rest) :: post ->
  forallb isWhiteSpace ws = true -> starts_clean key = true ->
  Forall (fun seg => startsWith (trim seg) (key ++ js "=") = false) post ->
  _get key (declared (Some d)) = Ok (Some (ws ++ rest)).
Proof.
  intros Es Hws Hk Hpost.
  rewrite _get_fold, Es, fold_left_app. cbn [fold_left].
  rewrite fold_select_no_match by exact Hpost.
  unfold select at 1.
  now rewrite segment_matches, replace_in_segment.
Qed.

Lemma _get_no_match (key : jsstring) (document : option J) :
  _get key (declared document) = Ok None <->
  match document with
  | Some d =>
      Forall (fun seg => startsWith (trim seg) (key ++ js "=") = false)
             (split semicolon (cookie d))
  | None => True
  end.
Proof.
  destruct document as [d|]; [|now split].
  rewrite _get_fold, Ok_eq_iff, fold_select_None. tauto.
Qed.

(** X3.  What [get] hands back: for the last segment of the snapshot
    whose trimmed form starts with [key=], the text after [key=] up to
    the next [";"], preceded by the white space that led the segment and
    followed by the white space that trailed it; earlier segments for the
    same key do not count. *)
Theorem get_returns_last_match_untrimmed (key : jsstring) (d : J)
    (pre post : list jsstring) (ws rest : jsstring) :
  split semicolon (cookie d) = pre ++ (ws ++ key ++ js "=" ++ rest) :: post ->
  forallb isWhiteSpace ws = true -> starts_clean key = true ->
  Forall (fun seg => startsWith (trim seg) (key ++ js "=") = false) post ->
  _get key (declared (Some d)) = Ok (Some (ws ++ rest)).
Proof. apply _get_last_match. Qed.

(** X4.  A key without a matching segment is left alone.  With
    [document] declared, [get] answers [null] exactly when no segment of
    the snapshot, once trimmed, starts with [key=], or the document is
    falsy; then [delete] and [update] return [false] with the document
    untouched, and [update] does not even look at its value.  Where
    [document] is not declared all three raise a ReferenceError. *)
Theorem missing_key_is_left_alone (key : jsstring) (document : global J) :
  match document with
  | undeclared =>
      _get key document = Throw ReferenceError /\
      _delete key document = Throw ReferenceError /\
      forall value options,
        _update key value options document = Throw ReferenceError
  | declared v =>
      (_get key document = Ok None <->
       match v with
       | Some d =>
           Forall (fun seg => startsWith (trim seg) (key ++ js "=") = false)
                  (split semicolon (cookie d))
       | None => True
       end) /\
      (_get key document = Ok None ->
       _delete key document = Ok (false, document) /\
       forall value options,
         _update key value options document = Ok (false, document))
  end.
Proof.
  destruct document as [|v]; [repeat split|].
  split; [apply _get_no_match|].
  intros G. split.
  - now apply (_delete_absent key _ _ G).
  - intros value options. now apply (_update_absent key value options _ _ G).
Qed.

End GetFacts.

Lemma get_returns_last_match_untrimmed_witness :
  _get (js "b") (declared (Some (recorder (js "b=0; a=1;  b=2 ; c=3") [])))
  = Ok (Some (js "  " ++ js "2 ")).
Proof.
  apply (get_returns_last_match_untrimmed (js "b")
           (recorder (js "b=0; a=1;  b=2 ; c=3") [])
           [js "b=0"; js " a=1"] [js " c=3"] (js "  ") (js "2 "));
    try reflexivity.
  repeat constructor.
Defined.

Lemma missing_key_is_left_alone_witness :
  _delete (js "b") (declared (Some (recorder (js "a=1; bb=2") [])))
  = Ok (false, declared (Some (recorder (js "a=1; bb=2") []))) /\
  forall value options,
    _update (js "b") value options (declared (Some (recorder (js "a=1; bb=2") [])))
    = Ok (false, declared (Some (recorder (js "a=1; bb=2") []))).
Proof.
  apply (proj2 (missing_key_is_left_alone
                  (js "b") (declared (Some (recorder (js "a=1; bb=2") []))))).
  reflexivity.
Defined.

(** ** Occurrences *)

Lemma includes_prefix (s p : jsstring) :
  startsWith s p = true -> includes s p = true.
Proof. intros E. destruct s; simpl; now rewrite E. Qed.

Lemma includes_iff (s p : jsstring) :
  includes s p = true <-> exists a b, s = a ++ p ++ b.
Proof.
  split.
  - induction s as [|c s IH]; cbn [includes]; intros E;
      apply orb_true_iff in E as [E|E].
    + exists [], []. destruct p; [reflexivity|discriminate].
    + discriminate.
    + exists [], (skipn (List.length p) (c :: s)).
      assert (P : forall (t q : jsstring),
                 startsWith t q = true -> t = q ++ skipn (List.length q) t).
      { intros t q; revert t; induction q as [|x q IHq]; intros [|y t];
          simpl; try easy.
        intros Hq. apply andb_true_iff in Hq as [H1 H2].
        apply Z.eqb_eq in H1. subst. f_equal. now apply IHq. }
      now apply P.
    + destruct (IH E) as (a & b & ->). now exists (c :: a), b.
  - intros (a & b & ->). induction a as [|c a IH].
    + cbn [app]. apply includes_prefix. apply startsWith_app.
    + cbn [app includes]. rewrite IH. apply orb_true_r.
Qed.

Section SetThenGet.

Context {J : Type} `{CookieJar J}.

Lemma _get_single_cookie (key e : jsstring) (d : J) :
  ~ In semicolon key -> starts_clean key = true ->
  forallb uri_safe e = true ->
  cookie d = key ++ js "=" ++ e ->
  _get key (declared (Some d)) = Ok (Some e).
Proof.
  intros Hk Hc He Ed.
  apply (_get_last_match key d [] [] [] e); auto.
  rewrite Ed. apply split_without_separator.
  rewrite js_equals. intros Hin. apply in_app_or in Hin as [Hin|[Hin|Hin]].
  - now apply Hk.
  - discriminate Hin.
  - rewrite forallb_forall in He.
    now elim (proj1 (uri_safe_not_separator _ (He _ Hin))).
Qed.

Lemma _set_reflected (key value e s : jsstring)
    (options : option CookieOptions) (d : J) :
  _server key value options = Ok s ->
  encodeURIComponent value = Ok e ->
  cookie (set_cookie s d) = key ++ js "=" ++ e ->
  _set key value options (declared (Some d))
  = Ok (true, declared (Some (set_cookie s d))).
Proof.
  intros Es He Ec. rewrite _server_cookie_string, He in Es.
  injection Es as <-. rewrite _set_cookie_string, He. cbn [bind].
  cbv zeta. rewrite Ec, includes_prefix; [reflexivity|].
  rewrite <- (app_nil_r (key ++ js "=" ++ e)) at 1. apply startsWith_app.
Qed.

(** X5.  Set, then get: on a host whose line after the assignment shows
    the pair ["key=encodedValue"] (attributes are not echoed), [set]
    returns [true] and [get] returns the value as it was encoded, not the
    value itself; percent-decoding it restores the value.  The key must
    hold no [";"] and must not begin with white space. *)
Theorem set_then_get_returns_encoded_value (key value e s : jsstring)
    (options : option CookieOptions) (d : J) :
  well_formed value = true ->
  _server key value options = Ok s ->
  encodeURIComponent value = Ok e ->
  ~ In semicolon key -> starts_clean key = true ->
  cookie (set_cookie s d) = key ++ js "=" ++ e ->
  _set key value options (declared (Some d))
  = Ok (true, declared (Some (set_cookie s d))) /\
  _get key (declared (Some (set_cookie s d))) = Ok (Some e) /\
  decodeURIComponent e = Ok value.
Proof.
  intros Hwf Es He Hk Hc Ec. split; [|split].
  - now apply (_set_reflected key value e).
  - apply _get_single_cookie; auto. now apply (encode_safe value).
  - destruct (encode_decode value Hwf) as (e' & He' & Hd). congruence.
Qed.

(** X6.  When [delete] goes ahead it assigns exactly ["key=; Path=/"],
    a string without Max-Age or Expires, and its result says whether the
    line read back still contains ["key="].  With [document] declared
    [delete] never throws; where it is not declared [delete] raises a
    ReferenceError. *)
Theorem delete_assigns_empty_value (key : jsstring) (document : global J) :
  match document with
  | undeclared => _delete key document = Throw ReferenceError
  | declared v =>
      (exists ok after, _delete key document = Ok (ok, declared after)) /\
      (forall d old,
          v = Some d -> _get key document = Ok (Some old) -> old <> [] ->
          _delete key document
          = Ok (includes (cookie (set_cookie (key ++ js "=; Path=/") d))
                         (key ++ js "="),
                declared (Some (set_cookie (key ++ js "=; Path=/") d))))
  end.
Proof.
  assert (P : forall d,
             _set key (js "")
                  (Some (object_literal
                           [p_maxAge (int 0); p_secure false;
                            p_path (js "/")]))
                  (declared (Some d))
             = Ok (includes (cookie (set_cookie (key ++ js "=; Path=/") d))
                            (key ++ js "="),
                   declared (Some (set_cookie (key ++ js "=; Path=/") d)))).
  { intros d. rewrite _set_cookie_string. cbn [encodeURIComponent bind js].
    cbv zeta. unfold cookie_string.
    change (attributes
              (object_literal
                 [p_maxAge (int 0); p_secure false; p_path (js "/")]))
      with (js "; Path=/").
    reflexivity. }
  destruct document as [|v]; [reflexivity|]. split.
  - destruct v as [d|]; [|now exists false, None].
    unfold _delete. rewrite _get_fold. cbn [bind].
    destruct (negb _); [now exists false, (Some d)|].
    rewrite P. eauto.
  - intros d old -> G Hold.
    rewrite (_delete_present key _ _ G), P; [reflexivity|].
    destruct old; [now elim Hold | reflexivity].
Qed.

(** X7.  [update] on a key that [get] finds with a non-empty value is
    [set] with the new value and options: on a host that then shows the
    new pair it returns [true] and a following [get] returns the new
    encoded value. *)
Theorem update_replaces_value (key value e s old : jsstring)
    (options : option CookieOptions) (d : J) :
  _get key (declared (Some d)) = Ok (Some old) -> old <> [] ->
  well_formed value = true ->
  _server key value options = Ok s ->
  encodeURIComponent value = Ok e ->
  ~ In semicolon key -> starts_clean key = true ->
  cookie (set_cookie s d) = key ++ js "=" ++ e ->
  _update key value options (declared (Some d))
  = Ok (true, declared (Some (set_cookie s d))) /\
  _get key (declared (Some (set_cookie s d))) = Ok (Some e).
Proof.
  intros G Hold Hwf Es He Hk Hc Ec.
  split.
  - rewrite (_update_present key value options _ _ G);
      [|destruct old; [now elim Hold | reflexivity]].
    now apply (_set_reflected key value e).
  - apply _get_single_cookie; auto. now apply (encode_safe value).
Qed.

End SetThenGet.

Lemma set_then_get_returns_encoded_value_witness :
  _set (js "a") (js "x y") (Some (object_literal [p_path (js "/")]))
       (declared (Some (MemoryJar.of_line (js ""))))
  = Ok (true, declared (Some (MemoryJar.of_line (js "a=x%20y")))) /\
  _get (js "a") (declared (Some (MemoryJar.of_line (js "a=x%20y"))))
  = Ok (Some (js "x%20y")) /\
  decodeURIComponent (js "x%20y") = Ok (js "x y").
Proof.
  refine (set_then_get_returns_encoded_value
            (js "a") (js "x y") (js "x%20y") (js "a=x%20y; Path=/")
            (Some (object_literal [p_path (js "/")]))
            (MemoryJar.of_line (js "")) _ _ _ _ _ _); try reflexivity.
  cbv. intuition discriminate.
Defined.

Lemma delete_assigns_empty_value_witness :
  _delete (js "a") (declared (Some (MemoryJar.of_line (js "a=1"))))
  = Ok (true, declared (Some (MemoryJar.of_line (js "a=")))).
Proof.
  refine (proj2 (delete_assigns_empty_value
                   (js "a") (declared (Some (MemoryJar.of_line (js "a=1")))))
                (MemoryJar.of_line (js "a=1")) (js "1") _ _ _).
  - reflexivity.
  - reflexivity.
  - discriminate.
Defined.

Lemma update_replaces_value_witness :
  _update (js "a") (js "2") None (declared (Some (MemoryJar.of_line (js "a=1"))))
  = Ok (true, declared (Some (MemoryJar.of_line (js "a=2")))) /\
  _get (js "a") (declared (Some (MemoryJar.of_line (js "a=2"))))
  = Ok (Some (js "2")).
Proof.
  refine (update_replaces_value
            (js "a") (js "2") (js "2") (js "a=2") (js "1") None
            (MemoryJar.of_line (js "a=1")) _ _ _ _ _ _ _ _); try reflexivity.
  - discriminate.
  - cbv. intuition discriminate.
Defined.

(** ** Segments, keys and values *)

Lemma split_app_separator (sep : code_unit) (a b : jsstring) :
  ~ In sep a -> split sep (a ++ sep :: b) = a :: split sep b.
Proof.
  induction a as [|c a IH]; intros Hn; simpl.
  - now rewrite Z.eqb_refl.
  - destruct (Z.eqb_spec c sep) as [->|_]; [elim Hn; now left|].
    rewrite IH; [reflexivity|]. intros Hin. apply Hn. now right.
Qed.

Lemma split_length (sep : code_unit) (s : jsstring) :
  List.length (split sep s) = S (count_occ Z.eq_dec s sep).
Proof.
  induction s as [|c s IH]; simpl; [reflexivity|].
  destruct (Z.eqb_spec c sep) as [->|Hc].
  - destruct (Z.eq_dec sep sep); [|contradiction]. simpl. now rewrite IH.
  - destruct (Z.eq_dec c sep); [contradiction|].
    destruct (split sep s); simpl in *; [discriminate|exact IH].
Qed.

Section KeysAndValues.

Context {J : Type} `{CookieJar J}.

Lemma _keys_map (d : J) :
  cookie d <> [] ->
  _keys (declared (Some d))
  = Ok (Some (List.map (fun seg => trim (nth 0 (split equals_sign seg) []))
                       (split semicolon (cookie d)))).
Proof.
  intros Hne. rewrite _keys_mapM by exact Hne.
  rewrite (mapM_Ok _ (fun seg => trim (nth 0 (split equals_sign seg) []))).
  - simpl. destruct (split semicolon (cookie d)) eqn:E;
      [now elim (split_not_nil semicolon (cookie d))|reflexivity].
  - intros a _. destruct (split equals_sign a) eqn:E;
      [now elim (split_not_nil equals_sign a)|reflexivity].
Qed.

Lemma _values_map (d : J) :
  cookie d <> [] ->
  (forall seg, In seg (split semicolon (cookie d)) -> In equals_sign seg) ->
  _values (declared (Some d))
  = Ok (Some (List.map (fun seg => trim (nth 1 (split equals_sign seg) []))
                       (split semicolon (cookie d)))).
Proof.
  intros Hne Hall. rewrite _values_mapM by exact Hne.
  rewrite (mapM_Ok _ (fun seg => trim (nth 1 (split equals_sign seg) []))).
  - simpl. destruct (split semicolon (cookie d)) eqn:E;
      [now elim (split_not_nil semicolon (cookie d))|reflexivity].
  - intros a Ha.
    destruct (split_with_separator _ _ (Hall a Ha)) as (x & y & rest & ->).
    reflexivity.
Qed.

(** X8.  With [document] declared [keys()] never throws, and on a
    non-empty snapshot it returns one key per segment: one more than the
    number of [";"] in the line, so a trailing [";"] contributes an empty
    key.  Where [document] is not declared [keys()] raises a
    ReferenceError. *)
Theorem keys_one_per_segment (document : global J) :
  match document with
  | undeclared => _keys document = Throw ReferenceError
  | declared v =>
      (exists r, _keys document = Ok r) /\
      (forall d, v = Some d -> cookie d <> [] ->
       exists ks,
         _keys document = Ok (Some ks) /\
         List.length ks = S (count_occ Z.eq_dec (cookie d) semicolon))
  end.
Proof.
  destruct document as [|v]; [reflexivity|]. split.
  - destruct v as [d|]; [|now exists None].
    destruct (cookie d) as [|c s] eqn:E.
    + unfold _keys. cbn [evaluate bind]. rewrite E. simpl. eauto.
    + rewrite _keys_map by (rewrite E; discriminate). eauto.
  - intros d -> Hne. rewrite _keys_map by exact Hne.
    eexists. split; [reflexivity|].
    now rewrite length_map, split_length.
Qed.

(** X9.  When every segment of a non-empty snapshot contains ["="],
    [keys()] and [values()] both return, with one entry per segment at
    the same index; the key is the trimmed text before the first ["="],
    the value the trimmed text between the first ["="] and the second,
    so a value that itself contains ["="] is cut there. *)
Theorem keys_and_values_aligned (d : J) :
  cookie d <> [] ->
  (forall seg, In seg (split semicolon (cookie d)) -> In equals_sign seg) ->
  exists ks vs,
    _keys (declared (Some d)) = Ok (Some ks) /\ _values (declared (Some d))
    = Ok (Some vs) /\
    List.length ks = List.length (split semicolon (cookie d)) /\
    List.length vs = List.length (split semicolon (cookie d)) /\
    forall i k v tail,
      nth_error (split semicolon (cookie d)) i
      = Some (k ++ equals_sign :: v ++ tail) ->
      ~ In equals_sign k -> ~ In equals_sign v ->
      tail = [] \/ (exists w, tail = equals_sign :: w) ->
      nth_error ks i = Some (trim k) /\ nth_error vs i = Some (trim v).
Proof.
  intros Hne Hall. rewrite _keys_map, _values_map by assumption.
  do 2 eexists. split; [reflexivity|]. split; [reflexivity|].
  rewrite !length_map. split; [reflexivity|]. split; [reflexivity|].
  intros i k v tail Hi Hk Hv Ht. rewrite !nth_error_map, Hi. cbn [option_map].
  rewrite (split_app_separator equals_sign k (v ++ tail) Hk).
  split; [reflexivity|]. do 2 f_equal. cbn [nth].
  destruct Ht as [->|(w & ->)].
  - now rewrite app_nil_r, (split_without_separator _ _ Hv).
  - now rewrite (split_app_separator equals_sign v w Hv).
Qed.

End KeysAndValues.

Lemma keys_one_per_segment_witness :
  exists ks,
    _keys (declared (Some (recorder (js "a=1; b=2;") []))) = Ok (Some ks) /\
    List.length ks = S (count_occ Z.eq_dec (js "a=1; b=2;") semicolon).
Proof.
  refine (proj2 (keys_one_per_segment
                   (declared (Some (recorder (js "a=1; b=2;") []))))
                (recorder (js "a=1; b=2;") []) _ _).
  - reflexivity.
  - discriminate.
Defined.

Lemma keys_and_values_aligned_witness :
  exists ks vs,
    _keys (declared (Some (recorder (js "a=1; t=YQ==") []))) = Ok (Some ks) /\
    _values (declared (Some (recorder (js "a=1; t=YQ==") []))) = Ok (Some vs) /\
    List.length ks = List.length (split semicolon (js "a=1; t=YQ==")) /\
    List.length vs = List.length (split semicolon (js "a=1; t=YQ==")) /\
    forall i k v tail,
      nth_error (split semicolon (js "a=1; t=YQ==")) i
      = Some (k ++ equals_sign :: v ++ tail) ->
      ~ In equals_sign k -> ~ In equals_sign v ->
      tail = [] \/ (exists w, tail = equals_sign :: w) ->
      nth_error ks i = Some (trim k) /\ nth_error vs i = Some (trim v).
Proof.
  refine (keys_and_values_aligned (recorder (js "a=1; t=YQ==") []) _ _).
  - discriminate.
  - intros seg [<-|[<-|[]]]; cbv; tauto.
Defined.

(** A value with padding, evaluated: the text after the second ["="] is
    lost. *)
Example values_cut_at_second_equals :
  _values (declared (Some (recorder (js "a=1; t=YQ==") [])))
  = Ok (Some [js "1"; js "YQ"]).
Proof. reflexivity. Qed.

(** ** Options that leave no trace *)

Lemma app_nil_iff {A : Type} (l r : list A) : l ++ r = [] <-> l = [] /\ r = [].
Proof.
  split; [apply app_eq_nil|]. now intros [-> ->].
Qed.

Lemma attributes_nil (o : CookieOptions) :
  attributes o = [] <-> all_falsy o = true.
Proof.
  unfold attributes, attribute_order, all_falsy. cbn [flat_map].
  change (@eq jsstring) with (@eq (list Z)).
  rewrite !app_nil_iff, !andb_true_iff.
  assert (D : attribute_text o Domain = [] <-> falsy_string (domain o) = true).
  { unfold attribute_text, emitted, with_value, falsy_string.
    destruct (domain o) as [[|c s]|]; simpl; split; easy. }
  assert (E : attribute_text o Expires = [] <-> absent (expiry o) = true).
  { unfold attribute_text, emitted, with_value.
    destruct (expiry o); simpl; split; easy. }
  assert (M : attribute_text o Max_Age = []
              <-> match maxAge o with
                  | Some NaN => true
                  | Some (Integer n _) => n =? 0
                  | Some (Inexact _) => false
                  | None => true
                  end = true).
  { unfold attribute_text, emitted, with_value, truthy_number.
    destruct (maxAge o) as [[|n safe|text]|];
      [|destruct (n =? 0)| |]; simpl; split; easy. }
  assert (P : attribute_text o Partitioned = []
              <-> falsy_boolean (partitioned o) = true).
  { unfold attribute_text, emitted.
    destruct (partitioned o) as [[]|]; simpl; split; easy. }
  assert (Q : attribute_text o Path = [] <-> falsy_string (path o) = true).
  { unfold attribute_text, emitted, with_value, falsy_string.
    destruct (path o) as [[|c s]|]; simpl; split; easy. }
  assert (S : attribute_text o SameSite_ = [] <-> absent (sameSite o) = true).
  { unfold attribute_text, emitted, with_value.
    destruct (sameSite o) as [[]|]; simpl; split; easy. }
  assert (X : attribute_text o Secure = []
              <-> falsy_boolean (secure o) = true).
  { unfold attribute_text, emitted.
    destruct (secure o) as [[]|]; simpl; split; easy. }
  assert (Y : attribute_text o HttpOnly = []
              <-> falsy_boolean (httpOnly o) = true).
  { unfold attribute_text, emitted.
    destruct (httpOnly o) as [[]|]; simpl; split; easy. }
  rewrite D, E, M, P, Q, S, X, Y. tauto.
Qed.

(** X10.  An option object changes the output exactly when one of its
    fields is truthy: the output with options equals the output without
    them if and only if every field is absent, an empty string, zero, NaN
    or [false]; so an empty domain or path, like a zero maxAge, is
    dropped without notice.  The same holds for what [set] does, in every
    state of [document]. *)
Theorem options_without_effect (key value e : jsstring) (o : CookieOptions) :
  encodeURIComponent value = Ok e ->
  (_server key value (Some o) = _server key value None
   <-> all_falsy o = true) /\
  (all_falsy o = true ->
   forall (J : Type) (jar : CookieJar J) (document : global J),
     _set key value (Some o) document = _set key value None document).
Proof.
  intros He. split.
  - rewrite !_server_cookie_string, He. cbn [bind]. unfold cookie_string.
    rewrite <- attributes_nil. split.
    + intros E. injection E as E.
      apply app_inv_head in E. injection E as E.
      now apply app_inv_head in E.
    + now intros ->.
  - intros Hf J jar document. apply attributes_nil in Hf.
    destruct document as [|v]; [now rewrite !_set_undeclared|].
    rewrite !_set_cookie_string. unfold cookie_string. now rewrite Hf.
Qed.

Lemma options_without_effect_witness :
  _server (js "k") (js "v")
          (Some (object_literal
                   [p_domain (js ""); p_path (js ""); p_maxAge (int 0);
                    p_secure false]))
  = _server (js "k") (js "v") None.
Proof.
  apply (proj1 (options_without_effect (js "k") (js "v") (js "v")
                  (object_literal
                     [p_domain (js ""); p_path (js ""); p_maxAge (int 0);
                      p_secure false]) eq_refl)).
  reflexivity.
Defined.

(** X11.  An expiry is always written, and a maxAge does not replace it:
    with both supplied the output carries Expires and then, for a maxAge
    that is truthy, Max-Age with the number as it prints (the decimal
    digits of a non-zero safe integer); a maxAge of zero or NaN leaves
    Expires alone.  An invalid Date does not make the formatter throw, it
    is written as ["Expires=Invalid Date"]. *)
Theorem expiry_is_always_emitted (key value e : jsstring) :
  encodeURIComponent value = Ok e ->
  (forall (when : Date.t) (n : Z)
          (safe : (Z.abs n <=? MAX_SAFE_INTEGER) = true),
      n <> 0 ->
      _server key value
              (Some (object_literal [p_maxAge (Integer n safe); p_expiry when]))
      = Ok (key ++ js "=" ++ e ++ js "; Expires=" ++ Date.toUTCString when
            ++ js "; Max-Age=" ++ decimal n)) /\
  (forall (when : Date.t) (text : jsstring),
      _server key value
              (Some (object_literal [p_maxAge (Inexact text); p_expiry when]))
      = Ok (key ++ js "=" ++ e ++ js "; Expires=" ++ Date.toUTCString when
            ++ js "; Max-Age=" ++ text)) /\
  (forall when : Date.t,
      _server key value (Some (object_literal [p_maxAge NaN; p_expiry when]))
      = Ok (key ++ js "=" ++ e ++ js "; Expires=" ++ Date.toUTCString when) /\
      _server key value (Some (object_literal [p_maxAge (int 0); p_expiry when]))
      = Ok (key ++ js "=" ++ e ++ js "; Expires=" ++ Date.toUTCString when)) /\
  _server key value (Some (object_literal [p_expiry (Date.mk None)]))
  = Ok (key ++ js "=" ++ e ++ js "; Expires=Invalid Date").
Proof.
  intros He.
  assert (G : forall when x,
             _server key value (Some (object_literal [p_maxAge x; p_expiry when]))
             = Ok (key ++ js "=" ++ e ++ js "; Expires="
                   ++ Date.toUTCString when
                   ++ (if truthy_number x then js "; Max-Age=" ++ ToString x
                       else []))).
  { intros when x. rewrite _server_cookie_string, He. cbn [bind].
    unfold cookie_string, attributes, attribute_order. cbn [flat_map].
    unfold attribute_text, emitted, with_value. cbn.
    destruct (truthy_number x); cbn;
      now rewrite <- ?app_assoc, ?app_nil_r. }
  split; [|split; [|split]].
  - intros when n safe Hn. rewrite G. cbn [truthy_number ToString].
    apply Z.eqb_neq in Hn. now rewrite Hn.
  - intros when text. now rewrite G.
  - intros when. rewrite !G. cbn. now rewrite app_nil_r.
  - rewrite _server_cookie_string, He. reflexivity.
Qed.

Lemma expiry_is_always_emitted_witness :
  _server (js "k") (js "v")
          (Some (object_literal [p_maxAge (int 60); p_expiry (Date.mk (Some 0))]))
  = Ok (js "k" ++ js "=" ++ js "v" ++ js "; Expires="
        ++ Date.toUTCString (Date.mk (Some 0))
        ++ js "; Max-Age=" ++ decimal 60).
Proof.
  refine (proj1 (expiry_is_always_emitted (js "k") (js "v") (js "v") eq_refl)
                (Date.mk (Some 0)) 60 eq_refl _).
  discriminate.
Defined.

(** ** The success test of [set] *)

Section SuccessTest.

Context {J : Type} `{CookieJar J}.

(** X12.  The result of [set] is a substring test on the line read back
    after the assignment: it is [true] exactly when ["key=encodedValue"]
    occurs somewhere in that line, at a cookie boundary or not, and
    whatever the host did with the assignment.  With [document] declared
    but falsy the result is [false]; where [document] is not declared
    [set] raises a ReferenceError. *)
Theorem set_success_is_substring_test (key value e s : jsstring)
    (options : option CookieOptions) :
  _server key value options = Ok s ->
  encodeURIComponent value = Ok e ->
  _set key value options (undeclared (J:=J)) = Throw ReferenceError /\
  _set key value options (declared (None (A:=J))) = Ok (false, declared None) /\
  forall d : J,
    exists ok,
      _set key value options (declared (Some d))
      = Ok (ok, declared (Some (set_cookie s d))) /\
      (ok = true <->
       exists a b, cookie (set_cookie s d) = a ++ (key ++ js "=" ++ e) ++ b).
Proof.
  intros Es He. rewrite _server_cookie_string, He in Es. injection Es as <-.
  split; [|split].
  - now rewrite _set_undeclared, He.
  - now rewrite _set_cookie_string, He.
  - intros d. rewrite _set_cookie_string, He. cbn [bind]. cbv zeta.
    eexists. split; [reflexivity|]. apply includes_iff.
Qed.

End SuccessTest.

Lemma set_success_is_substring_test_witness :
  _set (js "a") (js "1") None (declared (Some (recorder (js "xa=12") [])))
  = Ok (true, declared (Some (recorder (js "xa=12") [js "a=1"]))) /\
  _get (js "a") (declared (Some (recorder (js "xa=12") [js "a=1"]))) = Ok None.
Proof.
  split; [|reflexivity].
  destruct (proj2 (proj2 (set_success_is_substring_test
                            (js "a") (js "1") (js "1") (js "a=1") None
                            eq_refl eq_refl))
                  (recorder (js "xa=12") [])) as (ok & E & T).
  assert (O : ok = true) by (apply T; now exists (js "x"), (js "2")).
  rewrite O in E. exact E.
Defined.
